(** * tuzilastvobih.py: a shallow embedding of the archive scraper

    The development follows [src/tuzilastvobih.py].  Python [str] values are
    modelled by [string]; a character is a code point below 256, so the
    predicates on characters below are the restrictions of Python's Unicode
    predicates to that range.  The external collaborators (the HTTP client,
    the HTML selector library, the transliteration function and the
    translation service) are parameters of the model; the spreadsheet writer
    is modelled by the rule by which it refuses a table; everything the
    script itself computes is a definition. *)

From Stdlib Require Import List String Ascii ZArith Lia Bool Arith Permutation.
From Stdlib Require Import DecimalString.
Import ListNotations.

Local Open Scope string_scope.
Local Open Scope list_scope.
Local Open Scope nat_scope.

Set Warnings "-abstract-large-number".

(** ** Python string primitives *)

Module PyStr.

(** [str.isspace] on one character, also the class [\s] of [re] and the
    separator set of [str.split()] and [str.strip()]: TAB..CR, FS..US, SPACE,
    NEL and NBSP. *)
Definition isspace (c : ascii) : bool :=
  let n := nat_of_ascii c in
  ((9 <=? n) && (n <=? 13)) || ((28 <=? n) && (n <=? 32))
  || (n =? 133) || (n =? 160).

(** The class [\d] of [re]: the only decimal digits below 256 are 0..9. *)
Definition isdigit (c : ascii) : bool :=
  let n := nat_of_ascii c in (48 <=? n) && (n <=? 57).

Definition digit_val (c : ascii) : nat := nat_of_ascii c - 48.

(** Truthiness of a [str]: [if s] holds for the non-empty strings. *)
Definition truthy (s : string) : bool :=
  match s with EmptyString => false | String _ _ => true end.

(** [sep.join(parts)]. *)
Definition join (sep : string) (parts : list string) : string :=
  String.concat sep parts.

(** [s.lstrip()]. *)
Fixpoint lstrip (s : string) : string :=
  match s with
  | EmptyString => EmptyString
  | String c s' => if isspace c then lstrip s' else s
  end.

(** [s.rstrip()]: a character is kept when something is kept after it or when
    it is not white space. *)
Fixpoint rstrip (s : string) : string :=
  match s with
  | EmptyString => EmptyString
  | String c s' =>
      match rstrip s' with
      | EmptyString => if isspace c then EmptyString else String c EmptyString
      | String _ _ as r => String c r
      end
  end.

(** [s.strip()]. *)
Definition strip (s : string) : string := rstrip (lstrip s).

(** [s.split()] with no separator: the maximal runs of non-space characters,
    in order.  [word] is the run being read. *)
Fixpoint split_from (s : string) (word : string) : list string :=
  match s with
  | EmptyString => if truthy word then [word] else []
  | String c s' =>
      if isspace c
      then (if truthy word then word :: split_from s' EmptyString
            else split_from s' EmptyString)
      else split_from s' (word ++ String c EmptyString)%string
  end.

Definition split (s : string) : list string := split_from s EmptyString.

(** [re.sub(r'\s+', ' ', s)]: every maximal run of white space becomes one
    space.  [in_run] tells that the previous character was white space. *)
Fixpoint collapse_from (s : string) (in_run : bool) : string :=
  match s with
  | EmptyString => EmptyString
  | String c s' =>
      if isspace c
      then (if in_run then collapse_from s' true
            else String " " (collapse_from s' true))
      else String c (collapse_from s' false)
  end.

Definition collapse_ws (s : string) : string := collapse_from s false.

(** Decimal rendering of a non-negative number, as [str(n)] and the [%d]-like
    fields of an f-string print it. *)
Definition of_nat (n : nat) : string := NilZero.string_of_uint (Nat.to_uint n).

Definition of_Z (z : Z) : string := NilZero.string_of_int (Z.to_int z).

(** Zero padding on the left up to [width] characters. *)
Fixpoint zeros (k : nat) : string :=
  match k with O => EmptyString | S k' => String "0" (zeros k') end.

Definition zfill (width : nat) (s : string) : string :=
  (zeros (width - String.length s) ++ s)%string.

(** The value of a string of ASCII digits, most significant first. *)
Fixpoint digits_val (s : string) (acc : nat) : nat :=
  match s with
  | EmptyString => acc
  | String c s' => digits_val s' (10 * acc + digit_val c)
  end.

End PyStr.

(** ** [int(s)] on a string *)

Module PyInt.

(** White space skipped around the literal: below 127 only TAB..CR and SPACE,
    above it the Unicode spaces NEL and NBSP. *)
Definition isspace (c : ascii) : bool :=
  let n := nat_of_ascii c in
  ((9 <=? n) && (n <=? 13)) || (n =? 32) || (n =? 133) || (n =? 160).

Fixpoint lskip (s : string) : string :=
  match s with
  | EmptyString => EmptyString
  | String c s' => if isspace c then lskip s' else s
  end.

Fixpoint rskip (s : string) : string :=
  match s with
  | EmptyString => EmptyString
  | String c s' =>
      match rskip s' with
      | EmptyString => if isspace c then EmptyString else String c EmptyString
      | String _ _ as r => String c r
      end
  end.

(** [sys.int_max_str_digits]. *)
Definition max_str_digits : nat := 4300.

(** Digits with single underscores between them.  [need_digit] holds at the
    start and after an underscore; [count] is the number of digits read. *)
Fixpoint digits (s : string) (acc : Z) (count : nat) (need_digit : bool)
  : option (Z * nat) :=
  match s with
  | EmptyString => if need_digit then None else Some (acc, count)
  | String c s' =>
      if PyStr.isdigit c
      then digits s' (10 * acc + Z.of_nat (PyStr.digit_val c))%Z (S count) false
      else if Ascii.eqb c "_"
           then (if need_digit then None else digits s' acc count true)
           else None
  end.

Definition unsigned (s : string) : option Z :=
  match digits s 0%Z 0 true with
  | Some (v, count) => if count <=? max_str_digits then Some v else None
  | None => None
  end.

(** [int(s)] for a [str]; [None] stands for [ValueError]. *)
Definition of_str (s : string) : option Z :=
  match rskip (lskip s) with
  | String "+" s' => unsigned s'
  | String "-" s' => option_map Z.opp (unsigned s')
  | body => unsigned body
  end.

End PyInt.

(** ** [datetime.strptime] and [strftime] for the formats of the script *)

Module Datetime.

(** A backtracking matcher lists, in the priority order of [re], every way a
    pattern matches a prefix of the text: the matched prefix and what is
    left.  The head of the list is what [re.match] finds. *)
Definition matcher := string -> list (string * string).

Definition cls (p : ascii -> bool) : matcher :=
  fun s =>
    match s with
    | String c s' => if p c then [(String c EmptyString, s')] else []
    | EmptyString => []
    end.

Definition chr (a : ascii) : matcher := cls (Ascii.eqb a).

Definition range (lo hi : ascii) : matcher :=
  cls (fun c => (nat_of_ascii lo <=? nat_of_ascii c)
                && (nat_of_ascii c <=? nat_of_ascii hi)).

Definition digit : matcher := cls PyStr.isdigit.

Definition seq2 (a b : matcher) : matcher :=
  fun s =>
    flat_map (fun xr =>
                map (fun yr => ((fst xr ++ fst yr)%string, snd yr))
                    (b (snd xr)))
             (a s).

Definition alt (a b : matcher) : matcher := fun s => a s ++ b s.

(** [p*] and [p+] for a character class, greedy: longest match first. *)
Fixpoint star (p : ascii -> bool) (s : string) : list (string * string) :=
  match s with
  | String c s' =>
      if p c
      then map (fun mr => (String c (fst mr), snd mr)) (star p s')
             ++ [(EmptyString, s)]
      else [(EmptyString, s)]
  | EmptyString => [(EmptyString, EmptyString)]
  end.

Definition plus (p : ascii -> bool) : matcher :=
  fun s =>
    match s with
    | String c s' =>
        if p c then map (fun mr => (String c (fst mr), snd mr)) (star p s')
        else []
    | EmptyString => []
    end.

(** The directives as [_strptime.TimeRE] spells them. *)

(** [%d]: [3[0-1]|[1-2]\d|0[1-9]|[1-9]| [1-9]]. *)
Definition re_d : matcher :=
  alt (seq2 (chr "3") (range "0" "1"))
 (alt (seq2 (range "1" "2") digit)
 (alt (seq2 (chr "0") (range "1" "9"))
 (alt (range "1" "9")
      (seq2 (chr " ") (range "1" "9"))))).

(** [%m]: [1[0-2]|0[1-9]|[1-9]]. *)
Definition re_m : matcher :=
  alt (seq2 (chr "1") (range "0" "2"))
 (alt (seq2 (chr "0") (range "1" "9"))
      (range "1" "9")).

(** [%Y]: [\d\d\d\d]. *)
Definition re_Y : matcher := seq2 digit (seq2 digit (seq2 digit digit)).

(** [%H]: [2[0-3]|[0-1]\d|\d]. *)
Definition re_H : matcher :=
  alt (seq2 (chr "2") (range "0" "3"))
 (alt (seq2 (range "0" "1") digit)
      digit).

(** [%M]: [[0-5]\d|\d]. *)
Definition re_M : matcher := alt (seq2 (range "0" "5") digit) digit.

(** The value [int(...)] gives to a matched group: the group of [%d] may
    start with a space. *)
Definition group_int (g : string) : nat := PyStr.digits_val (PyStr.lstrip g) 0.

Record datetime := mk_datetime
  { year : nat; month : nat; day : nat; hour : nat; minute : nat }.

Definition bind_match {A} (m : list (string * string))
  (k : string -> string -> list A) : list A :=
  flat_map (fun gr => k (fst gr) (snd gr)) m.

(** The regular expression of the format ["%d.%m.%Y. %H:%M"]: the groups in
    order, the literal periods and colon, and [\s+] for the blank of the
    format.  Every match is listed with the text it leaves unread. *)
Definition format_matches (s : string) : list (datetime * string) :=
  bind_match (re_d s) (fun d s1 =>
  bind_match (chr "." s1) (fun _ s2 =>
  bind_match (re_m s2) (fun m s3 =>
  bind_match (chr "." s3) (fun _ s4 =>
  bind_match (re_Y s4) (fun y s5 =>
  bind_match (chr "." s5) (fun _ s6 =>
  bind_match (plus PyStr.isspace s6) (fun _ s7 =>
  bind_match (re_H s7) (fun h s8 =>
  bind_match (chr ":" s8) (fun _ s9 =>
  bind_match (re_M s9) (fun mi rest =>
    [(mk_datetime (group_int y) (group_int m) (group_int d)
                  (group_int h) (group_int mi), rest)])))))))))).

Definition is_leap (y : nat) : bool :=
  (y mod 4 =? 0) && (negb (y mod 100 =? 0) || (y mod 400 =? 0)).

Definition days_in_month (y m : nat) : nat :=
  match m with
  | 2 => if is_leap y then 29 else 28
  | 4 | 6 | 9 | 11 => 30
  | _ => 31
  end.

(** The range checks of the [date] constructor. *)
Definition valid_date (dt : datetime) : bool :=
  (1 <=? year dt) && (year dt <=? 9999)
  && (1 <=? month dt) && (month dt <=? 12)
  && (1 <=? day dt) && (day dt <=? days_in_month (year dt) (month dt)).

(** [datetime.strptime(s, "%d.%m.%Y. %H:%M")]; [None] stands for the
    [ValueError] raised when the text does not match, when unconverted text
    remains after the match, or when the date does not exist. *)
Definition strptime (s : string) : option datetime :=
  match format_matches s with
  | (dt, EmptyString) :: _ => if valid_date dt then Some dt else None
  | _ => None
  end.

(** [dt.strftime("%Y-%m-%d")]; the C library prints [%Y] without padding. *)
Definition strftime_date (dt : datetime) : string :=
  (PyStr.of_nat (year dt) ++ "-" ++ PyStr.zfill 2 (PyStr.of_nat (month dt))
   ++ "-" ++ PyStr.zfill 2 (PyStr.of_nat (day dt)))%string.

(** [dt.strftime("%H:%M")]. *)
Definition strftime_time (dt : datetime) : string :=
  (PyStr.zfill 2 (PyStr.of_nat (hour dt)) ++ ":"
   ++ PyStr.zfill 2 (PyStr.of_nat (minute dt)))%string.

End Datetime.

(** ** Exceptions, events and the state of a run *)

(** The exception classes the script can meet.  [HTTPError], [ConnectionError]
    and [Timeout] are subclasses of [requests.RequestException];
    [IllegalCharacterError] is what the spreadsheet writer raises; every
    class here is a subclass of [Exception]. *)
Inductive exn :=
| RequestException | HTTPError | ConnectionError | Timeout
| TypeError | ValueError | KeyError | IllegalCharacterError | OtherError.

Definition is_request_exception (e : exn) : bool :=
  match e with
  | RequestException | HTTPError | ConnectionError | Timeout => true
  | _ => false
  end.

Inductive result (A : Type) :=
| Ret (a : A)
| Raise (e : exn).
Arguments Ret {A} a.
Arguments Raise {A} e.

(** A value stored in a scraped entry. *)
Inductive pyval :=
| PyNone
| PyStr (s : string).

Definition is_str (v : pyval) : bool :=
  match v with PyStr _ => true | PyNone => false end.

(** An entry is the [dict] built by [extract_news_entry]: keys in insertion
    order. *)
Definition entry := list (string * pyval).

(** The [logging] calls of the script, one constructor per call site. *)
Inductive log_record :=
| ErrTranslationChunk
| ErrTranslation
| ErrDateParsing
| ErrRequest (page_num : Z)
| ErrExtract
| InfoTotalEntries (n : nat)
| InfoScrapingTime
| InfoSaved (n : nat) (filename : string).

(** What a run does to the outside, in order.  [ESave] is the table written
    to a file; [EPartial] is the file that a write which fails half-way
    leaves behind. *)
Inductive event :=
| EGet (url : string)
| ETranslate (text : string)
| ELog (r : log_record)
| ESubmit (page_num : Z)
| ESave (filename : string) (rows : list entry)
| EPartial (filename : string).

Record response := mk_response { status_code : Z; text : string }.

(** What the two XPath queries of [extract_news_entry] find in a listing
    row: the text nodes under [h3] and the first [href] under it. *)
Record row := mk_row { h3_texts : list string; h3_href : option string }.

(** What the three XPath queries find in a detail page. *)
Record detail := mk_detail
  { date_text : option string;
    intro_texts : list string;
    details_texts : list string }.

(** The external collaborators: the site behind [requests.get], the
    translation service behind [translate_text(..)['TranslatedText']], the
    [unidecode] transliteration, the [parsel] queries, and the order in which
    the thread pool completes the submitted tasks.  [W] is the state of the
    outside world: the same request may be answered differently at different
    times.  A call of the two services either raises or returns; the
    translation service returns text when it returns.  The queries stand for
    [Selector(text).xpath(...)] followed by [getall()] or [get()]. *)
Record collaborators := mk_collaborators
  { W : Type;
    requests_get : string -> W -> result response * W;
    translate_text : string -> W -> result string * W;
    unidecode : string -> string;
    select_news_rows : string -> list row;
    select_detail : string -> detail;
    select_total_page : string -> option string;
    as_completed : list Z -> list Z }.

(** The state of a run: the outside world, the events so far and the
    [all_entries] list of the scraper object. *)
Record state (E : collaborators) := mk_state
  { world : W E; trace : list event; all_entries : list entry }.
Arguments mk_state {E} _ _ _.
Arguments world {E} _.
Arguments trace {E} _.
Arguments all_entries {E} _.

(** Computations: state passing with exceptions. *)
Definition M (E : collaborators) (A : Type) := state E -> result A * state E.

Definition ret {E A} (a : A) : M E A := fun st => (Ret a, st).

Definition raise {E A} (e : exn) : M E A := fun st => (Raise e, st).

Definition bind {E A B} (c : M E A) (k : A -> M E B) : M E B :=
  fun st =>
    match c st with
    | (Ret a, st') => k a st'
    | (Raise e, st') => (Raise e, st')
    end.

Notation "x <- c ;; k" := (bind c (fun x => k))
  (at level 61, c at next level, right associativity).
Notation "c ;;; k" := (bind c (fun _ => k))
  (at level 61, right associativity).

(** [try: body except cls: handler], where [handles] tells the classes caught. *)
Definition try_except {E A} (body : M E A) (handles : exn -> bool)
  (handler : M E A) : M E A :=
  fun st =>
    match body st with
    | (Ret a, st') => (Ret a, st')
    | (Raise e, st') => if handles e then handler st' else (Raise e, st')
    end.

(** [except Exception]. *)
Definition any_exception (e : exn) : bool := true.

Definition emit {E} (ev : event) : M E unit :=
  fun st => (Ret tt, mk_state (world st) (trace st ++ [ev]) (all_entries st)).

Definition log {E} (r : log_record) : M E unit := emit (ELog r).

(** ** The scraper: [class TuzilastvoBIHScraper] *)

Section Scraper.

Variable E : collaborators.

(** [requests.get(url, headers=..., timeout=...)]. *)
Definition http_get (url : string) : M E response :=
  fun st =>
    let (r, w) := requests_get E url (world st) in
    (r, mk_state w (trace st ++ [EGet url]) (all_entries st)).

(** [response.raise_for_status()]: [HTTPError] for the 4xx and 5xx codes. *)
Definition raise_for_status (r : response) : M E unit :=
  if ((400 <=? status_code r) && (status_code r <? 600))%Z
  then raise HTTPError else ret tt.

(** [translate_text(text)['TranslatedText']]. *)
Definition translate_call (text : string) : M E string :=
  fun st =>
    let (r, w) := translate_text E text (world st) in
    (r, mk_state w (trace st ++ [ETranslate text]) (all_entries st)).

Definition base_url : string := "https://www.tuzilastvobih.gov.ba/index.php".

Definition default_chunk_size : nat := 3000.

(** One turn of the loop over [words] in [safe_translate]: the state is
    [(chunks, current_chunk)]. *)
Definition chunk_step (chunk_size : nat) (acc : list string * string)
  (word : string) : list string * string :=
  let (chunks, current_chunk) := acc in
  if chunk_size <? String.length current_chunk + String.length word + 1
  then (chunks ++ [PyStr.strip current_chunk], word)
  else (chunks,
        if PyStr.truthy current_chunk
        then (current_chunk ++ (" " ++ word))%string
        else word).

(** The chunks [safe_translate] builds for a long text. *)
Definition make_chunks (text : string) (chunk_size : nat) : list string :=
  let words := PyStr.split text in
  let (chunks, current_chunk) :=
    fold_left (chunk_step chunk_size) words ([], EmptyString) in
  if PyStr.truthy current_chunk
  then chunks ++ [PyStr.strip current_chunk]
  else chunks.

(** The loop translating each chunk, with its own [try]. *)
Fixpoint translate_chunks (chunks : list string)
  (translated_chunks : list string) : M E (list string) :=
  match chunks with
  | [] => ret translated_chunks
  | chunk :: rest =>
      translated_chunk <-
        try_except (translate_call chunk) any_exception
                   (log ErrTranslationChunk ;;; ret chunk) ;;
      translate_chunks rest (translated_chunks ++ [translated_chunk])
  end.

Definition safe_translate (text : string) (chunk_size : nat) : M E string :=
  if negb (PyStr.truthy text) || (String.length text <? 3)
  then ret EmptyString
  else
    try_except
      (if chunk_size <? String.length text
       then
         translated_chunks <- translate_chunks (make_chunks text chunk_size) [] ;;
         ret (PyStr.join " " translated_chunks)
       else translate_call text)
      any_exception
      (log ErrTranslation ;;; ret text).

(** [format_date]; the argument is [None] when the page has no date node. *)
Definition format_date (date_str : option string) : M E (string * string) :=
  try_except
    (match date_str with
     | None => raise TypeError
     | Some s =>
         match Datetime.strptime s with
         | None => raise ValueError
         | Some dt =>
             ret (Datetime.strftime_date dt, Datetime.strftime_time dt)
         end
     end)
    any_exception
    (log ErrDateParsing ;;; ret ("N/A", "N/A")).

Definition extract_news_entry (r : row) : M E (option entry) :=
  try_except
    (let news_heading := PyStr.strip (PyStr.join " " (h3_texts r)) in
     let news_heading := unidecode E news_heading in
     match h3_href r with
     | None => ret None
     | Some news_url =>
         if negb (PyStr.truthy news_url) then ret None
         else
           let full_url := (base_url ++ news_url)%string in
           response <- http_get full_url ;;
           raise_for_status response ;;;
           let detailed_page := select_detail E (text response) in
           date_time <- format_date (date_text detailed_page) ;;
           let (news_date, news_time) := date_time in
           let news_summary :=
             PyStr.collapse_ws
               (PyStr.strip (PyStr.join " " (intro_texts detailed_page))) in
           let news_details :=
             PyStr.collapse_ws
               (PyStr.strip (PyStr.join " " (details_texts detailed_page))) in
           heading_translated <- safe_translate news_heading default_chunk_size ;;
           summary_translated <- safe_translate news_summary default_chunk_size ;;
           details_translated <- safe_translate news_details default_chunk_size ;;
           ret (Some
                  [("news_public_date", PyStr news_date);
                   ("news_public_time", PyStr news_time);
                   ("news_url", PyStr full_url);
                   ("news_heading", PyStr news_heading);
                   ("news_heading_translated", PyStr heading_translated);
                   ("news_summary", PyStr news_summary);
                   ("news_summary_translated", PyStr summary_translated);
                   ("news_details", PyStr news_details);
                   ("news_details_translated", PyStr details_translated)])
     end)
    any_exception
    (log ErrExtract ;;; ret None).

(** The loop over [news_rows] in [fetch_page_content]. *)
Fixpoint extract_rows (news_rows : list row) (page_entries : list entry)
  : M E (list entry) :=
  match news_rows with
  | [] => ret page_entries
  | r :: rest =>
      e <- extract_news_entry r ;;
      match e with
      | Some en => extract_rows rest (page_entries ++ [en])
      | None => extract_rows rest page_entries
      end
  end.

Definition listing_url (page_num : Z) : string :=
  (base_url ++ "?opcija=arhiva&strana=" ++ PyStr.of_Z page_num ++ "&jezik=b")%string.

Definition fetch_page_content (page_num : Z) : M E (list entry) :=
  try_except
    (response <- http_get (listing_url page_num) ;;
     raise_for_status response ;;;
     let news_rows := select_news_rows E (text response) in
     match news_rows with
     | [] => ret []
     | _ => extract_rows news_rows []
     end)
    is_request_exception
    (log (ErrRequest page_num) ;;; ret []).

(** [range(lo, hi)]. *)
Definition py_range (lo hi : Z) : list Z :=
  map (fun i => (lo + Z.of_nat i)%Z) (seq 0 (Z.to_nat (hi - lo))).

(** [executor.submit] for every page, in order. *)
Fixpoint submit_all (pages : list Z) : M E unit :=
  match pages with
  | [] => ret tt
  | p :: rest => emit (ESubmit p) ;;; submit_all rest
  end.

(** The pool runs every submitted task to its end: leaving the [with] block
    waits for the tasks and cancels none.  The outcomes are listed in the
    order the tasks complete, which is the order [as_completed] yields them.
    The tasks share nothing but the outside world, and a task is taken as one
    step with respect to it; [pages] is the completion order. *)
Fixpoint run_tasks (pages : list Z)
  : state E -> list (result (list entry)) * state E :=
  fun st =>
    match pages with
    | [] => ([], st)
    | p :: rest =>
        let (r, st1) := fetch_page_content p st in
        let (rs, st2) := run_tasks rest st1 in
        (r :: rs, st2)
    end.

Definition extend (page_entries : list entry) : M E unit :=
  fun st =>
    (Ret tt, mk_state (world st) (trace st) (all_entries st ++ page_entries)).

(** The loop [for future in as_completed(futures)]: [future.result()] raises
    what the task raised; an empty result leaves the loop. *)
Fixpoint collect (futures : list (result (list entry))) : M E unit :=
  match futures with
  | [] => ret tt
  | Raise e :: _ => raise e
  | Ret [] :: _ => ret tt
  | Ret page_entries :: rest => extend page_entries ;;; collect rest
  end.

(** The [with ThreadPoolExecutor(...)] block. *)
Definition run_pool (pages : list Z) : M E unit :=
  submit_all pages ;;;
  fun st =>
    let (futures, st1) := run_tasks (as_completed E pages) st in
    collect futures st1.

Definition first_url : string :=
  "https://www.tuzilastvobih.gov.ba/index.php?opcija=arhiva&strana=1&jezik=b".

(** [int(total_page)]. *)
Definition int_of (total_page : option string) : M E Z :=
  match total_page with
  | None => raise TypeError
  | Some s =>
      match PyInt.of_str s with
      | Some z => ret z
      | None => raise ValueError
      end
  end.

Definition scrape_all_pages : M E (list entry) :=
  response <- http_get first_url ;;
  let total_page := select_total_page E (text response) in
  max_pages <- int_of total_page ;;
  run_pool (py_range 1 (max_pages + 1)) ;;;
  fun st =>
    (log (InfoTotalEntries (List.length (all_entries st))) ;;;
     log InfoScrapingTime ;;;
     ret (all_entries st)) st.

Definition default_filename : string := "tuzilastvobih_gov.xlsx".

(** The characters [openpyxl] refuses in a cell: the control characters
    other than TAB, LF and CR. *)
Definition illegal_char (c : ascii) : bool :=
  let n := nat_of_ascii c in
  (n <=? 8) || ((11 <=? n) && (n <=? 12)) || ((14 <=? n) && (n <=? 31)).

Fixpoint has_illegal (s : string) : bool :=
  match s with
  | EmptyString => false
  | String c s' => illegal_char c || has_illegal s'
  end.

(** The writer cuts the text of a cell to [cell_limit] characters before it
    looks for characters to refuse. *)
Definition cell_limit : nat := 32767.

Fixpoint take (n : nat) (s : string) : string :=
  match s with
  | EmptyString => EmptyString
  | String c s' =>
      match n with
      | O => EmptyString
      | S n' => String c (take n' s')
      end
  end.

Definition refused (s : string) : bool := has_illegal (take cell_limit s).

Definition writable_value (v : pyval) : bool :=
  match v with
  | PyStr s => negb (refused s)
  | PyNone => true
  end.

(** A table every cell of which, the column names included, the writer
    accepts. *)
Definition writable (rows : list entry) : bool :=
  forallb (fun en =>
             forallb (fun kv => negb (refused (fst kv))
                                && writable_value (snd kv)) en)
          rows.

(** [save_to_excel]: [pd.DataFrame(self.all_entries).to_excel(filename, ...)]
    and the log line.  The write raises [IllegalCharacterError] at the first
    cell the writer refuses, and the writer then still closes the file it
    began.  The file system is taken to accept the file and the table to
    fit a sheet. *)
Definition save_to_excel (filename : string) : M E unit :=
  fun st =>
    if writable (all_entries st)
    then (emit (ESave filename (all_entries st)) ;;;
          log (InfoSaved (List.length (all_entries st)) filename)) st
    else (emit (EPartial filename) ;;; raise IllegalCharacterError) st.

(** [TuzilastvoBIHScraper(...)]: a new object starts with no entries. *)
Definition new_scraper : M E unit :=
  fun st => (Ret tt, mk_state (world st) (trace st) []).

Definition main : M E unit :=
  new_scraper ;;;
  scrape_all_pages ;;;
  save_to_excel default_filename.

End Scraper.

(** ** The per-chunk fallback as the specification words it

    Each chunk is sent to the translation service in order; a chunk whose
    call fails stands for itself, a chunk whose call succeeds is replaced by
    its translation. *)
Fixpoint chunk_fallbacks (E : collaborators) (chunks : list string) (w : W E)
  : list string :=
  match chunks with
  | [] => []
  | chunk :: rest =>
      let (r, w1) := translate_text E chunk w in
      match r with
      | Ret translated => translated
      | Raise _ => chunk
      end :: chunk_fallbacks E rest w1
  end.

(** The translation calls recorded in a trace, in order. *)
Definition translate_calls (tr : list event) : list string :=
  flat_map (fun ev => match ev with ETranslate t => [t] | _ => [] end) tr.

(** The state after more events. *)
Definition with_events {E} (st : state E) (evs : list event) : state E :=
  mk_state (world st) (trace st ++ evs) (all_entries st).

(** The state after more entries were added to [all_entries]. *)
Definition with_entries {E} (st : state E) (more : list entry) : state E :=
  mk_state (world st) (trace st) (all_entries st ++ more).

(** The longest prefix of non-empty page results. *)
Fixpoint until_empty (results : list (list entry)) : list (list entry) :=
  match results with
  | [] => []
  | [] :: _ => []
  | r :: rest => r :: until_empty rest
  end.

(** The keys of a complete entry, in column order. *)
Definition entry_keys : list string :=
  ["news_public_date"; "news_public_time"; "news_url"; "news_heading";
   "news_heading_translated"; "news_summary"; "news_summary_translated";
   "news_details"; "news_details_translated"].

Definition complete (en : entry) : Prop :=
  map fst en = entry_keys /\ forallb is_str (map snd en) = true.

(** The two outcomes of a listing fetch that the specification names, read
    off the outside world [w]: the request fails, by an exception of the
    [requests] library or by a 4xx/5xx status; or the page is served and
    holds no listing row. *)
Definition error_status (r : response) : bool :=
  ((400 <=? status_code r) && (status_code r <? 600))%Z.

Definition listing_fetch_error (E : collaborators) (page_num : Z) (w : W E)
  : Prop :=
  match fst (requests_get E (listing_url page_num) w) with
  | Raise e => is_request_exception e = true
  | Ret r => error_status r = true
  end.

Definition listing_empty (E : collaborators) (page_num : Z) (w : W E) : Prop :=
  match fst (requests_get E (listing_url page_num) w) with
  | Raise _ => False
  | Ret r => error_status r = false /\ select_news_rows E (text r) = []
  end.

(** The first archive page cannot be used to find the page count: the request
    raises, or the pagination text is absent, or [int] rejects it. *)
Definition setup_fails (E : collaborators) (w : W E) : Prop :=
  match fst (requests_get E first_url w) with
  | Raise _ => True
  | Ret r =>
      match select_total_page E (text r) with
      | None => True
      | Some s => PyInt.of_str s = None
      end
  end.

(** A word of [str.split()]: not empty and free of white space. *)
Fixpoint nospace (s : string) : bool :=
  match s with
  | EmptyString => true
  | String c s' => negb (PyStr.isspace c) && nospace s'
  end.

Definition is_word (w : string) : Prop := w <> EmptyString /\ nospace w = true.

(** The detail request of a row fails: [requests.get] raises, whatever the
    exception, or the answer has a 4xx/5xx status. *)
Definition detail_fetch_error (E : collaborators) (url : string) (w : W E)
  : Prop :=
  match fst (requests_get E url w) with
  | Raise _ => True
  | Ret r => error_status r = true
  end.

(** A row whose heading carries a link that is not the empty string. *)
Definition has_link (r : row) : bool :=
  match h3_href r with
  | Some news_url => PyStr.truthy news_url
  | None => false
  end.

(** The site answers every request with a page, never an error. *)
Definition always_served (E : collaborators) : Prop :=
  forall url w,
    exists resp w',
      requests_get E url w = (Ret resp, w') /\ error_status resp = false.

(** A computation whose new events all satisfy [P], and which leaves
    [all_entries] alone. *)
Definition adds {E A} (P : event -> Prop) (c : M E A) : Prop :=
  forall st r st',
    c st = (r, st') ->
    all_entries st' = all_entries st
    /\ exists evs, trace st' = trace st ++ evs /\ Forall P evs.

(** The events of a page task: requests under [base_url], translation calls
    and error logs. *)
Definition task_event (ev : event) : Prop :=
  match ev with
  | EGet url => String.prefix base_url url = true
  | ETranslate _ => True
  | ELog (InfoTotalEntries _ | InfoScrapingTime | InfoSaved _ _) => False
  | ELog _ => True
  | ESubmit _ | ESave _ _ | EPartial _ => False
  end.

(** The outcomes of tasks whose returned entries all carry the nine
    fields. *)
Definition complete_results (futures : list (result (list entry))) : Prop :=
  Forall (fun f => match f with
                   | Ret l => Forall complete l
                   | Raise _ => True
                   end) futures.

(** [requests.get] raises nothing but exceptions of the [RequestException]
    family. *)
Definition only_request_errors (E : collaborators) : Prop :=
  forall url w e,
    fst (requests_get E url w) = Raise e -> is_request_exception e = true.

(** The word that opens the group [next] does not fit after the group [g]:
    with it and a space the chunk of [g] would exceed [chunk_size]. *)
Definition tight (chunk_size : nat) (g next : list string) : Prop :=
  match next with
  | w :: _ =>
      chunk_size < String.length (PyStr.join " " g) + String.length w + 1
  | [] => True
  end.

(** Every group of the list is tight with the group that follows it. *)
Fixpoint chain (chunk_size : nat) (groups : list (list string)) : Prop :=
  match groups with
  | [] => True
  | g :: rest =>
      match rest with
      | next :: _ => tight chunk_size g next
      | [] => True
      end /\ chain chunk_size rest
  end.

(** A site and a translation service that answer without changing. *)
Definition frozen (E : collaborators) : Prop :=
  (forall url w, snd (requests_get E url w) = w)
  /\ (forall t w, snd (translate_text E t w) = w).

(** A computation that leaves the outside world as it was and whose outcome
    depends on the state through the outside world only. *)
Definition stable {E A} (c : M E A) : Prop :=
  forall st,
    world (snd (c st)) = world st
    /\ forall st2, world st2 = world st -> fst (c st2) = fst (c st).

(** The entries the task of a page returns from the state [st], none when
    it raises. *)
Definition page_entries (E : collaborators) (st : state E) (page_num : Z)
  : list entry :=
  match fst (fetch_page_content E page_num st) with
  | Ret l => l
  | Raise _ => []
  end.

(** A text that is over or goes on with white space. *)
Definition breaks (s : string) : Prop :=
  match s with
  | EmptyString => True
  | String c _ => PyStr.isspace c = true
  end.

(** The inputs [format_date] can parse; [None] is a missing date node. *)
Definition parses (d : option string) : bool :=
  match d with
  | Some s => match Datetime.strptime s with Some _ => true | None => false end
  | None => false
  end.

(** A computation that returns from every state: it raises nothing. *)
Definition returns {E A} (c : M E A) : Prop :=
  forall st, exists a st', c st = (Ret a, st').

(** A computation that only adds events: it leaves [all_entries] alone and
    keeps the events already recorded. *)
Definition grows {E A} (c : M E A) : Prop :=
  forall st r st',
    c st = (r, st') ->
    all_entries st' = all_entries st
    /\ exists evs, trace st' = trace st ++ evs.

(** The events that close a run which collected [rows]. *)
Definition closing_events (rows : list entry) : list event :=
  [ELog (InfoTotalEntries (List.length rows)); ELog InfoScrapingTime;
   ESave default_filename rows;
   ELog (InfoSaved (List.length rows) default_filename)].

(** The events that close a run whose table the writer refuses. *)
Definition failed_closing_events (rows : list entry) : list event :=
  [ELog (InfoTotalEntries (List.length rows)); ELog InfoScrapingTime;
   EPartial default_filename].

(** The entries the loop over the completed tasks keeps: those of the
    results that come before the first empty result and before the first
    task that raised. *)
Fixpoint kept (futures : list (result (list entry))) : list entry :=
  match futures with
  | Ret (en :: l) :: rest => (en :: l) ++ kept rest
  | _ => []
  end.

(** The exception that ends the loop: that of the first task that raised,
    when no empty result comes before it. *)
Fixpoint first_raise (futures : list (result (list entry))) : option exn :=
  match futures with
  | Ret (_ :: _) :: rest => first_raise rest
  | Raise e :: _ => Some e
  | _ => None
  end.

(** A group of words whose chunk fits in [chunk_size], or which is one word
    longer than [chunk_size]. *)
Definition fits_or_single (chunk_size : nat) (g : list string) : Prop :=
  String.length (PyStr.join " " g) <= chunk_size
  \/ exists w, g = [w] /\ chunk_size < String.length w.

(** The value an entry has under a key. *)
Fixpoint field (key : string) (en : entry) : option pyval :=
  match en with
  | [] => None
  | (k, v) :: rest => if String.eqb k key then Some v else field key rest
  end.

(** The address [extract_news_entry] requests for a row. *)
Definition row_url (r : row) : string :=
  match h3_href r with
  | Some news_url => (base_url ++ news_url)%string
  | None => EmptyString
  end.

(** ** A small site to run the model on *)

Module Demo.

Inductive page :=
| Rows (news_rows : list row)
| Fails (e : exn)
| Status (code : Z).

Definition listing_text (p : Z) : string := ("listing " ++ PyStr.of_Z p)%string.

Definition page_of_url (url : string) : option Z :=
  find (fun p => String.eqb url (listing_url p)) (py_range 1 10).

Definition page_of_text (t : string) : option Z :=
  find (fun p => String.eqb t (listing_text p)) (py_range 1 10).

Definition get (site : Z -> page) (url : string) (w : unit)
  : result response * unit :=
  match page_of_url url with
  | Some p =>
      match site p with
      | Rows _ => (Ret (mk_response 200 (listing_text p)), w)
      | Fails e => (Raise e, w)
      | Status code => (Ret (mk_response code EmptyString), w)
      end
  | None => (Ret (mk_response 200 ("detail " ++ url)), w)
  end.

Definition news_rows_of (site : Z -> page) (t : string) : list row :=
  match page_of_text t with
  | Some p => match site p with Rows rs => rs | _ => [] end
  | None => []
  end.

Definition detail_of (date : option string) (t : string) : detail :=
  mk_detail date ["Uvod "; t] ["Tekst"; "  vijesti "].

Definition total_of (total : option string) (t : string) : option string :=
  if String.eqb t (listing_text 1) then total else None.

(** A site with its page table, the text of the pagination control, the date
    text of every detail page, the translation service and the completion
    order of the pool. *)
Definition site_env (site : Z -> page) (total : option string)
  (date : option string) (translate : string -> result string)
  (order : list Z -> list Z) : collaborators :=
  mk_collaborators unit (get site) (fun t w => (translate t, w))
    (fun s => s) (news_rows_of site) (detail_of date) (total_of total) order.

Definition start (E : collaborators) (w : W E) : state E := mk_state w [] [].

Definition english (t : string) : result string := Ret ("EN " ++ t)%string.

Definition offline (t : string) : result string := Raise ConnectionError.

Definition article (href : string) : row := mk_row ["Vijest"; href] (Some href).

Definition no_link : row := mk_row ["Bez linka"] None.

Definition good_date : option string := Some "05.03.2021. 14:30".

(** Three pages, the second of which cannot be fetched. *)
Definition site_timeout (p : Z) : page :=
  match p with
  | 1%Z => Rows [article "?a=1"]
  | 2%Z => Fails Timeout
  | 3%Z => Rows [article "?a=3"]
  | _ => Rows []
  end.

(** Three pages, the second of which has no rows. *)
Definition site_gap (p : Z) : page :=
  match p with
  | 1%Z => Rows [article "?a=1"]
  | 2%Z => Rows []
  | 3%Z => Rows [article "?a=3"]
  | _ => Rows []
  end.

(** A page with a row that has no link between two articles. *)
Definition site_no_link (p : Z) : page :=
  match p with
  | 1%Z => Rows [article "?a=1"; no_link; article "?a=2"]
  | _ => Rows []
  end.

Definition in_order (l : list Z) : list Z := l.

Definition env_timeout : collaborators :=
  site_env site_timeout (Some "3") good_date english in_order.

Definition env_gap : collaborators :=
  site_env site_gap (Some "3") good_date english in_order.

Definition env_no_link : collaborators :=
  site_env site_no_link (Some "1") good_date english in_order.

(** A site whose dates do not parse and whose translation service is down. *)
Definition env_degraded : collaborators :=
  site_env site_no_link (Some "1") (Some "not-a-date") offline in_order.

(** A site whose pagination control is missing. *)
Definition env_no_total : collaborators :=
  site_env site_gap None good_date english in_order.

(** A translation service that fails on one chunk only. *)
Definition flaky (t : string) : result string :=
  if String.eqb t "cc dd" then Raise Timeout else english t.

Definition env_flaky : collaborators :=
  site_env site_gap (Some "3") good_date flaky in_order.

(** The state of a run of [main] once the three pages are submitted. *)
Definition submitted (E : collaborators) (w : W E) : state E :=
  mk_state w (EGet first_url :: map ESubmit (py_range 1 4)) [].

(** The lists returned by the tasks that did return. *)
Definition returned (futures : list (result (list entry))) : list (list entry) :=
  flat_map (fun f => match f with Ret l => [l] | Raise _ => [] end) futures.

Definition first_response : response := mk_response 200 (listing_text 1).

(** Three pages; the request of the second raises outside the
    [RequestException] family. *)
Definition site_crash (p : Z) : page :=
  match p with
  | 1%Z => Rows [article "?a=1"]
  | 2%Z => Fails OtherError
  | 3%Z => Rows [article "?a=3"]
  | _ => Rows []
  end.

Definition env_crash : collaborators :=
  site_env site_crash (Some "3") good_date english in_order.

(** A site that announces no page. *)
Definition env_zero : collaborators :=
  site_env site_gap (Some "0") good_date english in_order.

(** Three pages with one article each, completed last page first. *)
Definition site_full (p : Z) : page :=
  match p with
  | 1%Z => Rows [article "?a=1"]
  | 2%Z => Rows [article "?a=2"]
  | 3%Z => Rows [article "?a=3"]
  | _ => Rows []
  end.

Definition env_full_reversed : collaborators :=
  site_env site_full (Some "3") good_date english (@rev Z).

(** Two pages with one article each; the first request of the run, for the
    address [first_url], is answered with status 500 and a body that still
    carries the pagination text; the tasks complete last page first. *)
Definition get_first_500 (url : string) (w : unit) : result response * unit :=
  if String.eqb url first_url
  then (Ret (mk_response 500 (listing_text 1)), w)
  else get site_full url w.

Definition env_first_page_500 : collaborators :=
  mk_collaborators unit get_first_500 (fun t w => (english t, w))
    (fun s => s) (news_rows_of site_full) (detail_of good_date)
    (total_of (Some "2")) (@rev Z).

(** A row whose link is the address of the second listing page. *)
Definition article_to_page_2 : row := article "?opcija=arhiva&strana=2&jezik=b".

End Demo.

(** * Properties *)

(** ** The date parser on sample inputs *)

Example strptime_sample :
  Datetime.strptime "05.03.2021. 14:30"
  = Some (Datetime.mk_datetime 2021 3 5 14 30).
Proof. vm_compute. reflexivity. Qed.

Example strptime_short_fields :
  option_map Datetime.strftime_time (Datetime.strptime "5.3.2021.  4:5")
  = Some "04:05".
Proof. vm_compute. reflexivity. Qed.

Example strptime_malformed : Datetime.strptime "not-a-date" = None.
Proof. vm_compute. reflexivity. Qed.

Example strptime_wrong_field_count : Datetime.strptime "05.03. 14:30" = None.
Proof. vm_compute. reflexivity. Qed.

Example strptime_day_out_of_range : Datetime.strptime "31.02.2021. 10:00" = None.
Proof. vm_compute. reflexivity. Qed.

Example strptime_month_out_of_range : Datetime.strptime "05.13.2021. 14:30" = None.
Proof. vm_compute. reflexivity. Qed.

Example strptime_hour_out_of_range : Datetime.strptime "05.03.2021. 24:00" = None.
Proof. vm_compute. reflexivity. Qed.

Example strptime_minute_out_of_range : Datetime.strptime "05.03.2021. 14:60" = None.
Proof. vm_compute. reflexivity. Qed.

Example strptime_leap_day :
  option_map Datetime.strftime_date (Datetime.strptime "29.02.2020. 10:00")
  = Some "2020-02-29".
Proof. vm_compute. reflexivity. Qed.

Section Properties.

Variable E : collaborators.

Implicit Types (st : state E) (text chunk : string) (chunk_size : nat).

(** *** Computations that always return *)

Lemma returns_ret {A} (a : A) : returns (ret (E := E) a).
Proof. intros st. exists a, st. reflexivity. Qed.

Lemma returns_bind {A B} (c : M E A) (k : A -> M E B) :
  returns c -> (forall a, returns (k a)) -> returns (bind c k).
Proof.
  intros Hc Hk st. unfold bind.
  destruct (Hc st) as (a & st1 & ->). apply Hk.
Qed.

Lemma returns_emit (ev : event) : returns (emit (E := E) ev).
Proof. intros st. eexists _, _. reflexivity. Qed.

Lemma returns_try_any {A} (body handler : M E A) :
  returns handler -> returns (try_except body any_exception handler).
Proof.
  intros Hh st. unfold try_except.
  destruct (body st) as [[a | e] st1].
  - exists a, st1. reflexivity.
  - simpl. apply Hh.
Qed.

Lemma returns_handler {A} (r : log_record) (a : A) :
  returns (log (E := E) r ;;; ret a).
Proof. apply returns_bind; intros; [apply returns_emit | apply returns_ret]. Qed.

Lemma format_date_returns (d : option string) : returns (format_date E d).
Proof. apply returns_try_any, returns_handler. Qed.

Lemma safe_translate_returns text chunk_size :
  returns (safe_translate E text chunk_size).
Proof.
  unfold safe_translate.
  destruct (negb (PyStr.truthy text) || (String.length text <? 3)).
  - apply returns_ret.
  - apply returns_try_any, returns_handler.
Qed.

Lemma extract_news_entry_returns (r : row) : returns (extract_news_entry E r).
Proof. apply returns_try_any, returns_handler. Qed.

Lemma extract_rows_returns (rows : list row) :
  forall acc, returns (extract_rows E rows acc).
Proof.
  induction rows as [| r rows IH]; intros acc; simpl.
  - apply returns_ret.
  - apply returns_bind; [apply extract_news_entry_returns |].
    intros [en |]; apply IH.
Qed.

(** *** [format_date] *)

Lemma format_date_parsed s dt st :
  Datetime.strptime s = Some dt ->
  format_date E (Some s) st
  = (Ret (Datetime.strftime_date dt, Datetime.strftime_time dt), st).
Proof.
  intros H. unfold format_date, try_except, ret. rewrite H. reflexivity.
Qed.

Lemma format_date_unparsed d st :
  parses d = false ->
  format_date E d st = (Ret ("N/A", "N/A"), with_events st [ELog ErrDateParsing]).
Proof.
  intros H. unfold format_date, try_except, parses in *.
  destruct d as [s |].
  - destruct (Datetime.strptime s); [discriminate | reflexivity].
  - reflexivity.
Qed.

(** C4, as the code has it: the sample date is parsed to
    [("2021-03-05", "14:30")] and leaves the state alone; every input that
    does not parse (a missing date node included) gives the pair
    [("N/A", "N/A")], logs one date-parsing error and raises nothing. *)
Theorem format_date_sample_and_sentinel st :
  format_date E (Some "05.03.2021. 14:30") st = (Ret ("2021-03-05", "14:30"), st)
  /\ (forall d,
        parses d = false ->
        format_date E d st
        = (Ret ("N/A", "N/A"), with_events st [ELog ErrDateParsing])).
Proof.
  split.
  - rewrite (format_date_parsed _ _ _ strptime_sample). reflexivity.
  - intros d. apply format_date_unparsed.
Qed.

(** *** [safe_translate] *)

Lemma short_guard text :
  String.length text < 3 ->
  negb (PyStr.truthy text) || (String.length text <? 3) = true.
Proof.
  intros H. apply orb_true_iff. right. apply Nat.ltb_lt. exact H.
Qed.

Lemma long_guard text :
  3 <= String.length text ->
  negb (PyStr.truthy text) || (String.length text <? 3) = false.
Proof.
  intros H. apply orb_false_iff. split.
  - destruct text; [simpl in H; lia | reflexivity].
  - apply Nat.ltb_ge. exact H.
Qed.

(** C7: a text shorter than three characters (the empty text included) gives
    the empty string and leaves the state as it was: the outside world is
    not touched and no event, so no translation call, is recorded. *)
Theorem safe_translate_short text chunk_size st :
  String.length text < 3 ->
  safe_translate E text chunk_size st = (Ret EmptyString, st).
Proof.
  intros H. unfold safe_translate. rewrite (short_guard _ H). reflexivity.
Qed.

Lemma translate_calls_app (tr evs : list event) :
  translate_calls (tr ++ evs) = translate_calls tr ++ translate_calls evs.
Proof. unfold translate_calls. apply flat_map_app. Qed.

(** The chunk loop returns the fallbacks of the specification after what was
    already translated, and calls the service once per chunk, in order. *)
Lemma translate_chunks_spec (chunks : list string) :
  forall (acc : list string) st,
  exists st',
    translate_chunks E chunks acc st
    = (Ret (acc ++ chunk_fallbacks E chunks (world st)), st')
    /\ translate_calls (trace st') = translate_calls (trace st) ++ chunks
    /\ all_entries st' = all_entries st.
Proof.
  induction chunks as [| chunk rest IH]; intros acc st; simpl.
  - exists st. rewrite !app_nil_r. auto.
  - unfold bind, try_except, translate_call.
    destruct (translate_text E chunk (world st)) as [[t | e] w1]; simpl.
    + destruct (IH (acc ++ [t])
                   (mk_state w1 (trace st ++ [ETranslate chunk]) (all_entries st)))
        as (st' & Hrun & Hcalls & Hent).
      exists st'. rewrite Hrun, Hcalls, Hent. simpl.
      rewrite translate_calls_app. simpl.
      rewrite <- !app_assoc. auto.
    + destruct (IH (acc ++ [chunk])
                   (mk_state w1 ((trace st ++ [ETranslate chunk])
                                   ++ [ELog ErrTranslationChunk])
                             (all_entries st)))
        as (st' & Hrun & Hcalls & Hent).
      exists st'. rewrite Hrun, Hcalls, Hent. simpl.
      rewrite !translate_calls_app. simpl.
      rewrite <- !app_assoc. auto.
Qed.

Lemma safe_translate_single text chunk_size st :
  3 <= String.length text <= chunk_size ->
  safe_translate E text chunk_size st
  = match translate_text E text (world st) with
    | (Ret translated, w) =>
        (Ret translated,
         mk_state w (trace st ++ [ETranslate text]) (all_entries st))
    | (Raise _, w) =>
        (Ret text,
         mk_state w (trace st ++ [ETranslate text; ELog ErrTranslation])
                  (all_entries st))
    end.
Proof.
  intros [H3 Hle]. unfold safe_translate. rewrite (long_guard _ H3).
  assert (Hc : (chunk_size <? String.length text) = false)
    by (apply Nat.ltb_ge; exact Hle).
  rewrite Hc. unfold try_except, translate_call.
  destruct (translate_text E text (world st)) as [[t | e] w]; simpl.
  - reflexivity.
  - unfold bind, log, emit, ret. simpl. rewrite <- app_assoc. reflexivity.
Qed.

Lemma safe_translate_chunked text chunk_size st :
  3 <= String.length text -> chunk_size < String.length text ->
  exists st',
    safe_translate E text chunk_size st
    = (Ret (PyStr.join " "
              (chunk_fallbacks E (make_chunks text chunk_size) (world st))),
       st')
    /\ translate_calls (trace st')
       = translate_calls (trace st) ++ make_chunks text chunk_size.
Proof.
  intros H3 Hlt. unfold safe_translate. rewrite (long_guard _ H3).
  assert (Hc : (chunk_size <? String.length text) = true)
    by (apply Nat.ltb_lt; exact Hlt).
  rewrite Hc. unfold try_except, bind.
  destruct (translate_chunks_spec (make_chunks text chunk_size) [] st)
    as (st' & Hrun & Hcalls & _).
  rewrite Hrun. simpl. exists st'. auto.
Qed.

(** C6: translation is best effort.  For a text of at least three and at
    most [chunk_size] characters the result is the translation when the one
    call succeeds and the text itself when it fails.  For a longer text the
    result is the chunks joined by one space, where each chunk whose call
    failed stands for itself and the others for their translations.  In
    both cases [safe_translate] returns. *)
Theorem safe_translate_best_effort text chunk_size st :
  3 <= String.length text ->
  (String.length text <= chunk_size ->
   fst (safe_translate E text chunk_size st)
   = Ret match fst (translate_text E text (world st)) with
         | Ret translated => translated
         | Raise _ => text
         end)
  /\ (chunk_size < String.length text ->
      fst (safe_translate E text chunk_size st)
      = Ret (PyStr.join " "
               (chunk_fallbacks E (make_chunks text chunk_size) (world st)))).
Proof.
  intros H3. split; intros H.
  - rewrite safe_translate_single by lia.
    destruct (translate_text E text (world st)) as [[t | e] w]; reflexivity.
  - destruct (safe_translate_chunked text chunk_size st H3 H) as (st' & -> & _).
    reflexivity.
Qed.

(** *** Strings: lengths, words, joining and stripping *)

Lemma length_append (a b : string) :
  String.length (a ++ b) = String.length a + String.length b.
Proof. induction a as [| c a IH]; simpl; [reflexivity | now rewrite IH]. Qed.

Lemma append_assoc (a b c : string) : ((a ++ b) ++ c = a ++ (b ++ c))%string.
Proof. induction a as [| x a IH]; simpl; [reflexivity | now rewrite IH]. Qed.

Lemma append_empty_r (a : string) : (a ++ "")%string = a.
Proof. induction a as [| x a IH]; simpl; [reflexivity | now rewrite IH]. Qed.

Lemma nospace_append (a b : string) :
  nospace (a ++ b) = nospace a && nospace b.
Proof.
  induction a as [| c a IH]; simpl; [reflexivity |].
  rewrite IH. now rewrite andb_assoc.
Qed.

Lemma truthy_nonempty (s : string) : PyStr.truthy s = true <-> s <> EmptyString.
Proof. destruct s; simpl; split; congruence. Qed.

Lemma split_from_words (s : string) :
  forall word, nospace word = true -> Forall is_word (PyStr.split_from s word).
Proof.
  induction s as [| c s IH]; intros word Hw; simpl.
  - destruct (PyStr.truthy word) eqn:Ht; constructor; [| constructor].
    split; [now apply truthy_nonempty | exact Hw].
  - destruct (PyStr.isspace c) eqn:Hc.
    + destruct (PyStr.truthy word) eqn:Ht.
      * constructor; [| now apply IH].
        split; [now apply truthy_nonempty | exact Hw].
      * now apply IH.
    + apply IH. rewrite nospace_append, Hw. simpl. now rewrite Hc.
Qed.

Lemma split_words text : Forall is_word (PyStr.split text).
Proof. now apply split_from_words. Qed.

Lemma rstrip_nospace (w : string) : nospace w = true -> PyStr.rstrip w = w.
Proof.
  induction w as [| c w IH]; simpl; [reflexivity |].
  intros H. apply andb_true_iff in H as [Hc Hw].
  rewrite (IH Hw). destruct w; [| reflexivity].
  apply negb_true_iff in Hc. now rewrite Hc.
Qed.

Lemma rstrip_append (a b : string) :
  b <> EmptyString -> PyStr.rstrip b = b -> PyStr.rstrip (a ++ b) = (a ++ b)%string.
Proof.
  intros Hb Hr. induction a as [| c a IH]; simpl; [exact Hr |].
  rewrite IH. destruct (a ++ b)%string eqn:Hab; [| reflexivity].
  destruct a; simpl in Hab; [contradiction | discriminate].
Qed.

Lemma lstrip_word_prefix (w s : string) :
  is_word w -> PyStr.lstrip (w ++ s) = (w ++ s)%string.
Proof.
  intros [Hne Hw]. destruct w as [| c w]; [contradiction |].
  simpl in *. apply andb_true_iff in Hw as [Hc _].
  apply negb_true_iff in Hc. now rewrite Hc.
Qed.

Lemma join_cons (w : string) (g : list string) :
  g <> [] -> PyStr.join " " (w :: g) = (w ++ " " ++ PyStr.join " " g)%string.
Proof. destruct g; [contradiction | reflexivity]. Qed.

Lemma join_snoc (g : list string) (w : string) :
  g <> [] -> PyStr.join " " (g ++ [w]) = (PyStr.join " " g ++ " " ++ w)%string.
Proof.
  induction g as [| x g IH]; [contradiction |]. intros _.
  destruct g as [| y g].
  - reflexivity.
  - change ((x :: y :: g) ++ [w]) with (x :: ((y :: g) ++ [w])).
    rewrite join_cons by (simpl; discriminate).
    rewrite IH by discriminate.
    rewrite (join_cons x (y :: g)) by discriminate.
    now rewrite !append_assoc.
Qed.

Lemma join_words_nonempty (g : list string) :
  Forall is_word g -> g <> [] -> PyStr.join " " g <> EmptyString.
Proof.
  intros Hg Hne. destruct g as [| w g]; [contradiction |].
  inversion Hg as [| ? ? [Hw _] _]; subst.
  destruct w as [| c w]; [contradiction |].
  destruct g; simpl; discriminate.
Qed.

Lemma rstrip_join (g : list string) :
  Forall is_word g -> PyStr.rstrip (PyStr.join " " g) = PyStr.join " " g.
Proof.
  induction g as [| w g IH]; intros Hg; [reflexivity |].
  inversion Hg as [| ? ? [Hne Hw] Hg']; subst.
  destruct g as [| y g].
  - simpl. now apply rstrip_nospace.
  - rewrite join_cons by discriminate.
    rewrite <- append_assoc. apply rstrip_append.
    + apply join_words_nonempty; [exact Hg' | discriminate].
    + now apply IH.
Qed.

Lemma strip_join (g : list string) :
  Forall is_word g -> PyStr.strip (PyStr.join " " g) = PyStr.join " " g.
Proof.
  intros Hg. unfold PyStr.strip.
  assert (Hl : PyStr.lstrip (PyStr.join " " g) = PyStr.join " " g).
  { destruct g as [| w g]; [reflexivity |].
    inversion Hg as [| ? ? Hw Hg']; subst.
    destruct g as [| y g].
    - simpl. rewrite <- (append_empty_r w) at 1 2. now apply lstrip_word_prefix.
    - rewrite join_cons by discriminate. now apply lstrip_word_prefix. }
  rewrite Hl. now apply rstrip_join.
Qed.

(** *** The chunk loop of [safe_translate] *)

Lemma join_empty_iff (g : list string) :
  Forall is_word g -> PyStr.truthy (PyStr.join " " g) = negb (Nat.eqb (List.length g) 0).
Proof.
  intros Hg. destruct g as [| w g]; [reflexivity |].
  simpl List.length. simpl negb.
  apply truthy_nonempty, join_words_nonempty; [exact Hg | discriminate].
Qed.

(** One turn of the loop in terms of word groups: either the current group is
    closed and the word opens a new one, or the word joins the current
    group. *)
Lemma chunk_step_groups chunk_size (groups : list (list string))
  (cur : list string) (word : string) :
  Forall is_word cur ->
  chunk_step chunk_size
    (map (PyStr.join " ") groups, PyStr.join " " cur) word
  = if chunk_size <? String.length (PyStr.join " " cur) + String.length word + 1
    then (map (PyStr.join " ") (groups ++ [cur]), PyStr.join " " [word])
    else (map (PyStr.join " ") groups, PyStr.join " " (cur ++ [word])).
Proof.
  intros Hcur. unfold chunk_step.
  destruct (chunk_size <? _).
  - rewrite map_app. simpl. now rewrite strip_join.
  - rewrite (join_empty_iff cur Hcur). destruct cur as [| x cur].
    + reflexivity.
    + simpl negb. now rewrite join_snoc by discriminate.
Qed.

Lemma chunk_loop_groups chunk_size (words : list string) :
  forall (groups : list (list string)) (cur : list string),
    Forall is_word words -> Forall is_word cur ->
    exists groups' cur',
      fold_left (chunk_step chunk_size) words
        (map (PyStr.join " ") groups, PyStr.join " " cur)
      = (map (PyStr.join " ") groups', PyStr.join " " cur')
      /\ List.concat groups' ++ cur' = List.concat groups ++ cur ++ words
      /\ Forall is_word cur'
      /\ (Forall (fun w => String.length w <= chunk_size) words ->
          Forall (fun c => String.length c <= chunk_size)
                 (map (PyStr.join " ") groups) ->
          String.length (PyStr.join " " cur) <= chunk_size ->
          Forall (fun c => String.length c <= chunk_size)
                 (map (PyStr.join " ") groups')
          /\ String.length (PyStr.join " " cur') <= chunk_size).
Proof.
  induction words as [| word words IH]; intros groups cur Hwords Hcur.
  - exists groups, cur. simpl. rewrite app_nil_r. auto.
  - inversion Hwords as [| ? ? Hword Hwords']; subst.
    cbn [fold_left]. rewrite (chunk_step_groups _ _ _ _ Hcur).
    destruct (chunk_size <? _) eqn:Hfull.
    + destruct (IH (groups ++ [cur]) [word] Hwords')
        as (groups' & cur' & Hrun & Hcat & Hcur' & Hbound).
      { constructor; [exact Hword | constructor]. }
      exists groups', cur'. split; [exact Hrun |]. split; [| split].
      * rewrite Hcat, concat_app. simpl. rewrite app_nil_r.
        now rewrite <- !app_assoc.
      * exact Hcur'.
      * intros Hlen Hgroups Hc. inversion Hlen; subst.
        apply Hbound; [assumption | | simpl; assumption].
        rewrite map_app. apply Forall_app. split; [exact Hgroups |].
        constructor; [exact Hc | constructor].
    + destruct (IH groups (cur ++ [word]) Hwords')
        as (groups' & cur' & Hrun & Hcat & Hcur' & Hbound).
      { apply Forall_app. split; [exact Hcur |].
        constructor; [exact Hword | constructor]. }
      exists groups', cur'. split; [exact Hrun |]. split; [| split].
      * rewrite Hcat. now rewrite <- !app_assoc.
      * exact Hcur'.
      * intros Hlen Hgroups Hc. inversion Hlen; subst.
        apply Hbound; [assumption | assumption |].
        apply Nat.ltb_ge in Hfull.
        destruct cur as [| x cur]; [simpl; assumption |].
        rewrite join_snoc by discriminate.
        remember (PyStr.join " " (x :: cur)) as joined.
        rewrite !length_append. simpl String.length. lia.
Qed.

Lemma make_chunks_groups text chunk_size :
  exists groups,
    make_chunks text chunk_size = map (PyStr.join " ") groups
    /\ List.concat groups = PyStr.split text
    /\ (Forall (fun w => String.length w <= chunk_size) (PyStr.split text) ->
        Forall (fun c => String.length c <= chunk_size)
               (make_chunks text chunk_size)).
Proof.
  unfold make_chunks.
  destruct (chunk_loop_groups chunk_size (PyStr.split text) [] []
              (split_words text) (Forall_nil _))
    as (groups & cur & Hrun & Hcat & Hcur & Hbound).
  simpl in Hrun, Hcat. rewrite Hrun.
  rewrite (join_empty_iff cur Hcur).
  assert (Hb : Forall (fun w => String.length w <= chunk_size) (PyStr.split text) ->
               Forall (fun c => String.length c <= chunk_size)
                      (map (PyStr.join " ") groups)
               /\ String.length (PyStr.join " " cur) <= chunk_size).
  { intros Hlen. apply Hbound; [exact Hlen | constructor | simpl; lia]. }
  destruct cur as [| x cur]; simpl negb; cbv iota.
  - exists groups. rewrite app_nil_r in Hcat. split; [reflexivity |].
    split; [exact Hcat |]. intros Hlen. now apply Hb.
  - exists (groups ++ [x :: cur]).
    rewrite map_app. simpl map. rewrite (strip_join _ Hcur).
    split; [reflexivity |]. split.
    + rewrite concat_app. simpl. now rewrite app_nil_r.
    + intros Hlen. destruct (Hb Hlen) as [Hg Hc].
      apply Forall_app. split; [exact Hg |].
      constructor; [exact Hc | constructor].
Qed.

Lemma fits_or_single_one chunk_size (w : string) :
  fits_or_single chunk_size [w].
Proof.
  destruct (le_lt_dec (String.length w) chunk_size) as [Hle | Hlt].
  - left. exact Hle.
  - right. now exists w.
Qed.

Lemma chunk_loop_fits chunk_size (words : list string) :
  forall (groups : list (list string)) (cur : list string),
    Forall is_word words -> Forall is_word cur ->
    Forall (fits_or_single chunk_size) groups ->
    fits_or_single chunk_size cur ->
    exists groups' cur',
      fold_left (chunk_step chunk_size) words
        (map (PyStr.join " ") groups, PyStr.join " " cur)
      = (map (PyStr.join " ") groups', PyStr.join " " cur')
      /\ List.concat groups' ++ cur' = List.concat groups ++ cur ++ words
      /\ Forall is_word cur'
      /\ Forall (fits_or_single chunk_size) groups'
      /\ fits_or_single chunk_size cur'.
Proof.
  induction words as [| word words IH];
    intros groups cur Hwords Hcur Hgroups Hfit.
  - exists groups, cur. simpl. rewrite app_nil_r. auto.
  - inversion Hwords as [| ? ? Hword Hwords']; subst.
    cbn [fold_left]. rewrite (chunk_step_groups _ _ _ _ Hcur).
    destruct (chunk_size <? _) eqn:Hfull.
    + destruct (IH (groups ++ [cur]) [word] Hwords')
        as (groups' & cur' & Hrun & Hcat & Hcur' & Hgroups' & Hfit').
      { constructor; [exact Hword | constructor]. }
      { apply Forall_app. split; [exact Hgroups |].
        constructor; [exact Hfit | constructor]. }
      { apply fits_or_single_one. }
      exists groups', cur'. split; [exact Hrun |]. split; [| auto].
      rewrite Hcat, concat_app. simpl. rewrite app_nil_r.
      now rewrite <- !app_assoc.
    + apply Nat.ltb_ge in Hfull.
      destruct (IH groups (cur ++ [word]) Hwords')
        as (groups' & cur' & Hrun & Hcat & Hcur' & Hgroups' & Hfit').
      { apply Forall_app. split; [exact Hcur |].
        constructor; [exact Hword | constructor]. }
      { exact Hgroups. }
      { left. destruct cur as [| x cur]; [simpl in *; lia |].
        rewrite join_snoc by discriminate.
        remember (PyStr.join " " (x :: cur)) as joined.
        rewrite !length_append. simpl String.length. lia. }
      exists groups', cur'. split; [exact Hrun |]. split; [| auto].
      rewrite Hcat. now rewrite <- !app_assoc.
Qed.

Lemma make_chunks_fits text chunk_size :
  exists groups,
    make_chunks text chunk_size = map (PyStr.join " ") groups
    /\ List.concat groups = PyStr.split text
    /\ Forall (fits_or_single chunk_size) groups.
Proof.
  unfold make_chunks.
  destruct (chunk_loop_fits chunk_size (PyStr.split text) [] []
              (split_words text) (Forall_nil _) (Forall_nil _))
    as (groups & cur & Hrun & Hcat & Hcur & Hgroups & Hfit).
  { left. simpl. lia. }
  simpl in Hrun, Hcat. rewrite Hrun. rewrite (join_empty_iff cur Hcur).
  destruct cur as [| x cur]; simpl negb; cbv iota.
  - exists groups. rewrite app_nil_r in Hcat. auto.
  - exists (groups ++ [x :: cur]).
    rewrite map_app. simpl map. rewrite (strip_join _ Hcur).
    split; [reflexivity |]. split.
    + rewrite concat_app. simpl. now rewrite app_nil_r.
    + apply Forall_app. split; [exact Hgroups |].
      constructor; [exact Hfit | constructor].
Qed.

Lemma length_join_in (g : list string) (w : string) :
  In w g -> String.length w <= String.length (PyStr.join " " g).
Proof.
  induction g as [| x g IH]; [intros [] |].
  intros Hin. destruct g as [| y g].
  - destruct Hin as [-> | []]. simpl. lia.
  - rewrite join_cons by discriminate.
    remember (PyStr.join " " (y :: g)) as joined.
    rewrite !length_append. simpl String.length.
    destruct Hin as [-> | Hin]; [lia |].
    specialize (IH Hin). lia.
Qed.

(** C5, as the code has it: the chunks are the words of the text taken in
    order and in whole, each chunk a run of consecutive words joined by one
    space; every chunk is at most [chunk_size] long, or is one single word
    that is longer than [chunk_size].  So when no word of the text is longer
    than [chunk_size], neither is any chunk; and a word that is longer is a
    chunk of its own. *)
Theorem make_chunks_whole_words_bounded text chunk_size :
  (exists groups,
      make_chunks text chunk_size = map (PyStr.join " ") groups
      /\ List.concat groups = PyStr.split text
      /\ Forall (fits_or_single chunk_size) groups)
  /\ ((forall w, In w (PyStr.split text) -> String.length w <= chunk_size) ->
      forall c, In c (make_chunks text chunk_size) ->
                String.length c <= chunk_size)
  /\ (forall w, In w (PyStr.split text) -> chunk_size < String.length w ->
                In w (make_chunks text chunk_size)).
Proof.
  split; [apply make_chunks_fits |]. split.
  - destruct (make_chunks_groups text chunk_size) as (groups & Hc & Hcat & Hb).
    intros Hw. apply Forall_forall, Hb, Forall_forall, Hw.
  - destruct (make_chunks_fits text chunk_size) as (groups & -> & Hcat & Hfit).
    intros w Hin Hlong. rewrite <- Hcat in Hin.
    apply in_concat in Hin as (g & Hg & Hwg).
    rewrite Forall_forall in Hfit.
    destruct (Hfit g Hg) as [Hle | (w' & -> & _)].
    + pose proof (length_join_in g w Hwg). lia.
    + destruct Hwg as [-> | []].
      apply in_map_iff. exists [w]. auto.
Qed.

(** *** [extract_news_entry] *)

Lemma extract_without_link (r : row) st :
  h3_href r = None -> extract_news_entry E r st = (Ret None, st).
Proof.
  intros H. unfold extract_news_entry. rewrite H. reflexivity.
Qed.

Lemma extract_with_empty_link (r : row) st :
  h3_href r = Some EmptyString -> extract_news_entry E r st = (Ret None, st).
Proof.
  intros H. unfold extract_news_entry. rewrite H. reflexivity.
Qed.

Lemma raise_for_status_ok (resp : response) st :
  error_status resp = false -> raise_for_status E resp st = (Ret tt, st).
Proof.
  unfold raise_for_status, error_status. intros ->. reflexivity.
Qed.

Lemma raise_for_status_error (resp : response) st :
  error_status resp = true -> raise_for_status E resp st = (Raise HTTPError, st).
Proof.
  unfold raise_for_status, error_status. intros ->. reflexivity.
Qed.

Lemma http_get_eq (url : string) st r w1 :
  requests_get E url (world st) = (r, w1) ->
  http_get E url st = (r, mk_state w1 (trace st ++ [EGet url]) (all_entries st)).
Proof. intros H. unfold http_get. rewrite H. reflexivity. Qed.

(** With a link and a detail page that is served, an entry with the nine
    fields comes out, whatever the date parser and the translation service
    do. *)
Lemma extract_fetched (r : row) st news_url resp w1 :
  h3_href r = Some news_url -> news_url <> EmptyString ->
  requests_get E (base_url ++ news_url) (world st) = (Ret resp, w1) ->
  error_status resp = false ->
  exists news_date news_time heading summary details st',
    extract_news_entry E r st
    = (Ret (Some
         [("news_public_date", PyStr news_date);
          ("news_public_time", PyStr news_time);
          ("news_url", PyStr (base_url ++ news_url));
          ("news_heading",
           PyStr (unidecode E (PyStr.strip (PyStr.join " " (h3_texts r)))));
          ("news_heading_translated", PyStr heading);
          ("news_summary",
           PyStr (PyStr.collapse_ws
                    (PyStr.strip
                       (PyStr.join " "
                          (intro_texts (select_detail E (text resp)))))));
          ("news_summary_translated", PyStr summary);
          ("news_details",
           PyStr (PyStr.collapse_ws
                    (PyStr.strip
                       (PyStr.join " "
                          (details_texts (select_detail E (text resp)))))));
          ("news_details_translated", PyStr details)]), st').
Proof.
  intros Hhref Hurl Hget Hstatus.
  unfold extract_news_entry. rewrite Hhref.
  apply truthy_nonempty in Hurl. rewrite Hurl. simpl negb. cbv iota.
  unfold try_except, bind.
  rewrite (http_get_eq _ _ _ _ Hget).
  rewrite (raise_for_status_ok _ _ Hstatus).
  match goal with |- context [format_date E ?d ?s] =>
    destruct (format_date_returns d s) as ([news_date news_time] & st2 & ->) end.
  match goal with |- context [safe_translate E ?t ?c ?s] =>
    destruct (safe_translate_returns t c s) as (heading & st3 & ->) end.
  match goal with |- context [safe_translate E ?t ?c st3] =>
    destruct (safe_translate_returns t c st3) as (summary & st4 & ->) end.
  match goal with |- context [safe_translate E ?t ?c st4] =>
    destruct (safe_translate_returns t c st4) as (details & st5 & ->) end.
  exists news_date, news_time, heading, summary, details, st5.
  reflexivity.
Qed.

(** Whatever [extract_news_entry] returns is nothing or an entry with all
    nine fields. *)
Lemma extract_none_or_complete (r : row) st :
  match fst (extract_news_entry E r st) with
  | Ret (Some en) => complete en
  | Ret None => True
  | Raise _ => False
  end.
Proof.
  destruct (h3_href r) as [news_url |] eqn:Hhref.
  2: { rewrite (extract_without_link _ _ Hhref). exact I. }
  destruct news_url as [| c u] eqn:Hu.
  { rewrite (extract_with_empty_link _ _ Hhref). exact I. }
  rewrite <- Hu in *. assert (Hne : news_url <> EmptyString) by (subst; discriminate).
  destruct (requests_get E (base_url ++ news_url) (world st)) as [[resp | e] w1] eqn:Hget.
  - destruct (error_status resp) eqn:Hstatus.
    + unfold extract_news_entry. rewrite Hhref.
      apply truthy_nonempty in Hne. rewrite Hne. simpl negb. cbv iota.
      unfold try_except, bind.
      rewrite (http_get_eq _ _ _ _ Hget).
      rewrite (raise_for_status_error _ _ Hstatus). simpl. exact I.
    + destruct (extract_fetched r st news_url resp w1 Hhref Hne Hget Hstatus)
        as (d & t & h & s & b & st' & ->).
      simpl. split; reflexivity.
  - unfold extract_news_entry. rewrite Hhref.
    apply truthy_nonempty in Hne. rewrite Hne. simpl negb. cbv iota.
    unfold try_except, bind.
    rewrite (http_get_eq _ _ _ _ Hget). simpl. exact I.
Qed.

(** C8: every entry [extract_news_entry] returns carries the nine fields, in
    column order, each with a string value; and when the row has a link and
    its detail page is served, an entry is returned whatever the date parser
    and the translation service did. *)
Theorem extract_entry_complete (r : row) st :
  (forall en, fst (extract_news_entry E r st) = Ret (Some en) -> complete en)
  /\ (forall news_url resp w1,
        h3_href r = Some news_url -> news_url <> EmptyString ->
        requests_get E (base_url ++ news_url) (world st) = (Ret resp, w1) ->
        error_status resp = false ->
        exists en, fst (extract_news_entry E r st) = Ret (Some en)
                   /\ complete en).
Proof.
  split.
  - intros en Hen. pose proof (extract_none_or_complete r st) as H.
    rewrite Hen in H. exact H.
  - intros news_url resp w1 Hhref Hne Hget Hstatus.
    destruct (extract_fetched r st news_url resp w1 Hhref Hne Hget Hstatus)
      as (d & t & h & s & b & st' & ->).
    eexists. split; [reflexivity |]. split; reflexivity.
Qed.

(** *** [fetch_page_content] *)

Lemma extract_rows_skip (r : row) (before after : list row) :
  h3_href r = None ->
  forall acc st,
    extract_rows E (before ++ r :: after) acc st
    = extract_rows E (before ++ after) acc st.
Proof.
  intros Hr. induction before as [| x before IH]; intros acc st; simpl.
  - unfold bind. now rewrite (extract_without_link _ _ Hr).
  - unfold bind.
    destruct (extract_news_entry E x st) as [[[en |] | e] st1]; auto.
Qed.

(** A served page: the result is that of the loop over its rows. *)
Lemma fetch_page_served (page_num : Z) st resp w1 :
  requests_get E (listing_url page_num) (world st) = (Ret resp, w1) ->
  error_status resp = false ->
  fetch_page_content E page_num st
  = extract_rows E (select_news_rows E (text resp)) []
      (mk_state w1 (trace st ++ [EGet (listing_url page_num)]) (all_entries st)).
Proof.
  intros Hget Hstatus. unfold fetch_page_content, try_except, bind.
  rewrite (http_get_eq _ _ _ _ Hget).
  rewrite (raise_for_status_ok _ _ Hstatus).
  destruct (select_news_rows E (text resp)) as [| r rows] eqn:Hrows.
  - reflexivity.
  - destruct (extract_rows_returns (r :: rows) [] 
                (mk_state w1 (trace st ++ [EGet (listing_url page_num)])
                          (all_entries st)))
      as (l & st' & Heq).
    now rewrite Heq.
Qed.

Lemma fetch_page_error (page_num : Z) st :
  listing_fetch_error E page_num (world st) ->
  fetch_page_content E page_num st
  = (Ret [],
     mk_state (snd (requests_get E (listing_url page_num) (world st)))
       (trace st ++ [EGet (listing_url page_num); ELog (ErrRequest page_num)])
       (all_entries st)).
Proof.
  unfold listing_fetch_error. intros Herr.
  unfold fetch_page_content, try_except, bind.
  destruct (requests_get E (listing_url page_num) (world st))
    as [[resp | e] w1] eqn:Hget; simpl in Herr.
  - rewrite (http_get_eq _ _ _ _ Hget).
    rewrite (raise_for_status_error _ _ Herr). simpl.
    unfold log, emit, ret. simpl. now rewrite <- app_assoc.
  - rewrite (http_get_eq _ _ _ _ Hget). rewrite Herr.
    unfold log, emit, ret. simpl. now rewrite <- app_assoc.
Qed.

Lemma fetch_page_empty (page_num : Z) st :
  listing_empty E page_num (world st) ->
  fetch_page_content E page_num st
  = (Ret [],
     mk_state (snd (requests_get E (listing_url page_num) (world st)))
       (trace st ++ [EGet (listing_url page_num)])
       (all_entries st)).
Proof.
  unfold listing_empty. intros Hempty.
  destruct (requests_get E (listing_url page_num) (world st))
    as [[resp | e] w1] eqn:Hget; simpl in Hempty; [| contradiction].
  destruct Hempty as [Hstatus Hrows].
  rewrite (fetch_page_served _ _ _ _ Hget Hstatus), Hrows. reflexivity.
Qed.

(** A task raises only what [requests.get] raised outside the
    [RequestException] family. *)
Lemma fetch_page_raises (page_num : Z) st e st' :
  fetch_page_content E page_num st = (Raise e, st') ->
  fst (requests_get E (listing_url page_num) (world st)) = Raise e
  /\ is_request_exception e = false.
Proof.
  unfold fetch_page_content, try_except, bind. intros H.
  destruct (requests_get E (listing_url page_num) (world st))
    as [[resp | e0] w1] eqn:Hget.
  - rewrite (http_get_eq _ _ _ _ Hget) in H.
    destruct (error_status resp) eqn:Hstatus.
    + rewrite (raise_for_status_error _ _ Hstatus) in H. simpl in H.
      unfold log, emit, ret in H. simpl in H. discriminate.
    + rewrite (raise_for_status_ok _ _ Hstatus) in H.
      destruct (select_news_rows E (text resp)) as [| r rows].
      * discriminate.
      * match type of H with context [extract_rows E ?l ?a ?s] =>
          destruct (extract_rows_returns l a s) as (x & st2 & Heq) end.
        rewrite Heq in H. discriminate.
  - rewrite (http_get_eq _ _ _ _ Hget) in H.
    destruct (is_request_exception e0) eqn:He.
    + unfold log, emit, ret in H. simpl in H. discriminate.
    + inversion H; subst. auto.
Qed.

(** C1, as the code has it: the task of a page returns the same value, the
    empty list, when the fetch fails (an exception of the HTTP library or a
    4xx/5xx status) and when the page is served without any row; only the
    error logged in the first case tells the two apart. *)
Theorem fetch_error_and_empty_both_empty (page_num : Z) st :
  (listing_fetch_error E page_num (world st) ->
   fst (fetch_page_content E page_num st) = Ret []
   /\ trace (snd (fetch_page_content E page_num st))
      = trace st ++ [EGet (listing_url page_num); ELog (ErrRequest page_num)])
  /\ (listing_empty E page_num (world st) ->
      fst (fetch_page_content E page_num st) = Ret []
      /\ trace (snd (fetch_page_content E page_num st))
         = trace st ++ [EGet (listing_url page_num)]).
Proof.
  split; intros H.
  - rewrite (fetch_page_error _ _ H). auto.
  - rewrite (fetch_page_empty _ _ H). auto.
Qed.

(** *** Tasks only add events *)

Lemma grows_ret {A} (a : A) : grows (ret (E := E) a).
Proof.
  intros st r st' H. inversion H; subst. split; [reflexivity |].
  exists []. now rewrite app_nil_r.
Qed.

Lemma grows_raise {A} (e : exn) : grows (raise (E := E) (A := A) e).
Proof.
  intros st r st' H. inversion H; subst. split; [reflexivity |].
  exists []. now rewrite app_nil_r.
Qed.

Lemma grows_emit (ev : event) : grows (emit (E := E) ev).
Proof.
  intros st r st' H. inversion H; subst. simpl. split; [reflexivity |].
  now exists [ev].
Qed.

Lemma grows_bind {A B} (c : M E A) (k : A -> M E B) :
  grows c -> (forall a, grows (k a)) -> grows (bind c k).
Proof.
  intros Hc Hk st r st' H. unfold bind in H.
  destruct (c st) as [[a | e] st1] eqn:Hcst.
  - destruct (Hc _ _ _ Hcst) as (Ha & evs1 & Ht1).
    destruct (Hk a _ _ _ H) as (Hb & evs2 & Ht2).
    split; [congruence |]. exists (evs1 ++ evs2).
    now rewrite Ht2, Ht1, app_assoc.
  - inversion H; subst. now apply (Hc _ _ _ Hcst).
Qed.

Lemma grows_try {A} (body handler : M E A) (handles : exn -> bool) :
  grows body -> grows handler -> grows (try_except body handles handler).
Proof.
  intros Hb Hh st r st' H. unfold try_except in H.
  destruct (body st) as [[a | e] st1] eqn:Hbst.
  - inversion H; subst. now apply (Hb _ _ _ Hbst).
  - destruct (Hb _ _ _ Hbst) as (Ha & evs1 & Ht1).
    destruct (handles e).
    + destruct (Hh _ _ _ H) as (Hb2 & evs2 & Ht2).
      split; [congruence |]. exists (evs1 ++ evs2).
      now rewrite Ht2, Ht1, app_assoc.
    + inversion H; subst. split; [exact Ha | now exists evs1].
Qed.

Lemma grows_http_get (url : string) : grows (http_get E url).
Proof.
  intros st r st' H. unfold http_get in H.
  destruct (requests_get E url (world st)) as [r0 w1].
  inversion H; subst. simpl. split; [reflexivity | now exists [EGet url]].
Qed.

Lemma grows_translate_call text : grows (translate_call E text).
Proof.
  intros st r st' H. unfold translate_call in H.
  destruct (translate_text E text (world st)) as [r0 w1].
  inversion H; subst. simpl. split; [reflexivity | now exists [ETranslate text]].
Qed.

Lemma grows_handler {A} (r : log_record) (a : A) :
  grows (log (E := E) r ;;; ret a).
Proof. apply grows_bind; intros; [apply grows_emit | apply grows_ret]. Qed.

Lemma grows_translate_chunks (chunks : list string) :
  forall acc, grows (translate_chunks E chunks acc).
Proof.
  induction chunks as [| chunk rest IH]; intros acc; simpl.
  - apply grows_ret.
  - apply grows_bind; [| intros; apply IH].
    apply grows_try; [apply grows_translate_call | apply grows_handler].
Qed.

Lemma grows_safe_translate text chunk_size :
  grows (safe_translate E text chunk_size).
Proof.
  unfold safe_translate.
  destruct (negb (PyStr.truthy text) || (String.length text <? 3)).
  - apply grows_ret.
  - apply grows_try; [| apply grows_handler].
    destruct (chunk_size <? String.length text).
    + apply grows_bind; [apply grows_translate_chunks | intros; apply grows_ret].
    + apply grows_translate_call.
Qed.

Lemma grows_format_date (d : option string) : grows (format_date E d).
Proof.
  apply grows_try; [| apply grows_handler].
  destruct d as [s |]; [| apply grows_raise].
  destruct (Datetime.strptime s); [apply grows_ret | apply grows_raise].
Qed.

Lemma grows_raise_for_status (resp : response) : grows (raise_for_status E resp).
Proof.
  unfold raise_for_status.
  destruct ((400 <=? status_code resp) && (status_code resp <? 600))%Z;
    [apply grows_raise | apply grows_ret].
Qed.

Lemma grows_extract_news_entry (r : row) : grows (extract_news_entry E r).
Proof.
  apply grows_try; [| apply grows_handler].
  destruct (h3_href r) as [news_url |]; [| apply grows_ret].
  destruct (negb (PyStr.truthy news_url)); [apply grows_ret |].
  apply grows_bind; [apply grows_http_get | intros resp].
  apply grows_bind; [apply grows_raise_for_status | intros _].
  apply grows_bind; [apply grows_format_date | intros [news_date news_time]].
  apply grows_bind; [apply grows_safe_translate | intros heading].
  apply grows_bind; [apply grows_safe_translate | intros summary].
  apply grows_bind; [apply grows_safe_translate | intros details].
  apply grows_ret.
Qed.

Lemma grows_extract_rows (rows : list row) :
  forall acc, grows (extract_rows E rows acc).
Proof.
  induction rows as [| r rows IH]; intros acc; simpl.
  - apply grows_ret.
  - apply grows_bind; [apply grows_extract_news_entry |].
    intros [en |]; apply IH.
Qed.

(** Every task starts by requesting its listing page. *)
Lemma fetch_page_trace (page_num : Z) st r st' :
  fetch_page_content E page_num st = (r, st') ->
  all_entries st' = all_entries st
  /\ exists evs, trace st' = trace st ++ EGet (listing_url page_num) :: evs.
Proof.
  unfold fetch_page_content. intros H.
  set (k := fun response : response =>
              raise_for_status E response ;;;
              match select_news_rows E (text response) with
              | [] => ret []
              | _ :: _ => extract_rows E (select_news_rows E (text response)) []
              end) in H.
  assert (Hk : forall resp, grows (k resp)).
  { intros resp. apply grows_bind; [apply grows_raise_for_status | intros _].
    destruct (select_news_rows E (text resp)); [apply grows_ret |].
    apply grows_extract_rows. }
  unfold try_except, bind, http_get in H.
  destruct (requests_get E (listing_url page_num) (world st)) as [[resp | e] w1].
  - set (st0 := mk_state w1 (trace st ++ [EGet (listing_url page_num)])
                         (all_entries st)) in H.
    assert (Hg : grows (try_except (k resp) is_request_exception
                          (log (ErrRequest page_num) ;;; ret []))).
    { apply grows_try; [apply Hk | apply grows_handler]. }
    destruct (Hg st0 r st') as (Ha & evs & Ht).
    { unfold try_except. exact H. }
    split; [exact Ha |]. exists evs. rewrite Ht. simpl.
    now rewrite <- app_assoc.
  - set (st0 := mk_state w1 (trace st ++ [EGet (listing_url page_num)])
                         (all_entries st)) in H.
    destruct (is_request_exception e).
    + destruct (grows_handler (ErrRequest page_num) (@nil entry) st0 r st' H)
        as (Ha & evs & Ht).
      split; [exact Ha |]. exists evs. rewrite Ht. simpl.
      now rewrite <- app_assoc.
    + inversion H; subst. simpl. split; [reflexivity |]. now exists [].
Qed.

(** A row with a link starts by requesting its detail page. *)
Lemma extract_requests_detail (r : row) (news_url : string) st res st' :
  h3_href r = Some news_url -> news_url <> EmptyString ->
  extract_news_entry E r st = (res, st') ->
  exists evs, trace st' = trace st ++ EGet (base_url ++ news_url) :: evs.
Proof.
  intros Hhref Hne H. unfold extract_news_entry in H. rewrite Hhref in H.
  apply truthy_nonempty in Hne. rewrite Hne in H.
  simpl negb in H. cbv iota in H.
  match type of H with
  | try_except (bind (http_get E ?u) ?K) _ _ _ = _ => set (k := K) in H
  end.
  assert (Hk : forall resp, grows (k resp)).
  { intros resp. unfold k.
    apply grows_bind; [apply grows_raise_for_status | intros _].
    apply grows_bind; [apply grows_format_date | intros [news_date news_time]].
    apply grows_bind; [apply grows_safe_translate | intros heading].
    apply grows_bind; [apply grows_safe_translate | intros summary].
    apply grows_bind; [apply grows_safe_translate | intros details].
    apply grows_ret. }
  unfold try_except, bind, http_get in H.
  destruct (requests_get E (base_url ++ news_url) (world st)) as [[resp | e] w1].
  - set (st0 := mk_state w1 (trace st ++ [EGet (base_url ++ news_url)])
                         (all_entries st)) in H.
    assert (Hg : grows (try_except (k resp) any_exception
                          (log ErrExtract ;;; ret None))).
    { apply grows_try; [apply Hk | apply grows_handler]. }
    destruct (Hg st0 res st') as (_ & evs & Ht).
    { unfold try_except. exact H. }
    exists evs. rewrite Ht. simpl. now rewrite <- app_assoc.
  - set (st0 := mk_state w1 (trace st ++ [EGet (base_url ++ news_url)])
                         (all_entries st)) in H.
    simpl in H.
    destruct (grows_handler ErrExtract (@None entry) st0 res st' H)
      as (_ & evs & Ht).
    exists evs. rewrite Ht. simpl. now rewrite <- app_assoc.
Qed.

(** The loop over the rows requests the detail page of every row that has a
    link. *)
Lemma extract_rows_requests (rows : list row) :
  forall acc st res st',
    extract_rows E rows acc st = (res, st') ->
    forall s news_url,
      In s rows -> h3_href s = Some news_url -> news_url <> EmptyString ->
      In (EGet (base_url ++ news_url)) (trace st').
Proof.
  induction rows as [| x rows IH]; intros acc st res st' H s news_url Hin;
    [destruct Hin |].
  simpl in H. unfold bind in H.
  destruct (extract_news_entry E x st) as [rx st1] eqn:Hx.
  destruct (extract_news_entry_returns x st) as (ox & st1' & Hret).
  rewrite Hx in Hret. inversion Hret; subst rx st1'.
  intros Hhref Hne. destruct Hin as [-> | Hin].
  - destruct (extract_requests_detail _ _ _ _ _ Hhref Hne Hx) as (evs & Ht).
    assert (Hg : exists more, trace st' = trace st1 ++ more).
    { destruct ox as [en |];
        destruct (grows_extract_rows rows _ _ _ _ H) as (_ & more & Hm);
        now exists more. }
    destruct Hg as (more & ->). rewrite Ht.
    apply in_or_app. left. apply in_or_app. right. now left.
  - destruct ox as [en |]; exact (IH _ _ _ _ H s news_url Hin Hhref Hne).
Qed.

(** On a site that serves every request, the loop returns one entry per row
    with a link, in the order of the rows, each under the address of its
    row. *)
Lemma extract_rows_urls (Hserved : always_served E) (rows : list row) :
  forall acc st l st',
    extract_rows E rows acc st = (Ret l, st') ->
    map (field "news_url") l
    = map (field "news_url") acc
      ++ map (fun s => Some (PyStr (row_url s))) (filter has_link rows).
Proof.
  induction rows as [| r rows IH]; intros acc st l st' H; simpl in H.
  - inversion H; subst. simpl. now rewrite app_nil_r.
  - unfold bind in H. simpl filter. unfold has_link at 1.
    destruct (h3_href r) as [news_url |] eqn:Hhref.
    + destruct news_url as [| c u] eqn:Hu.
      * rewrite (extract_with_empty_link _ _ Hhref) in H. simpl.
        now apply IH in H.
      * rewrite <- Hu in *.
        assert (Hne : news_url <> EmptyString) by (subst; discriminate).
        destruct (Hserved (base_url ++ news_url)%string (world st))
          as (resp & w1 & Hget & Hstatus).
        destruct (extract_fetched r st news_url resp w1 Hhref Hne Hget Hstatus)
          as (d & t & h & sm & b & st2 & Heq).
        rewrite Heq in H. apply IH in H. rewrite H, map_app.
        apply truthy_nonempty in Hne. rewrite Hne.
        rewrite <- app_assoc. f_equal. simpl map. unfold row_url.
        rewrite Hhref. reflexivity.
    + rewrite (extract_without_link _ _ Hhref) in H. now apply IH in H.
Qed.

(** C10: a row whose heading has no link gives no entry, raises nothing and
    leaves the state as it was (nothing is fetched, translated or logged);
    and on a served page the rows around it are processed as if it were not
    there: the detail page of each of them that has a link is requested,
    and when the site serves every request the task returns one entry for
    each of them that has a link, in the order of the rows, under the
    address of its row. *)
Theorem row_without_link_is_skipped (r : row) :
  h3_href r = None ->
  (forall st, extract_news_entry E r st = (Ret None, st))
  /\ (forall page_num st resp w1 before after,
        requests_get E (listing_url page_num) (world st) = (Ret resp, w1) ->
        error_status resp = false ->
        select_news_rows E (text resp) = before ++ r :: after ->
        fetch_page_content E page_num st
        = extract_rows E (before ++ after) []
            (mk_state w1 (trace st ++ [EGet (listing_url page_num)])
                      (all_entries st))
        /\ (forall s news_url,
              In s (before ++ after) ->
              h3_href s = Some news_url -> news_url <> EmptyString ->
              In (EGet (base_url ++ news_url))
                 (trace (snd (fetch_page_content E page_num st))))
        /\ (always_served E ->
            exists l,
              fst (fetch_page_content E page_num st) = Ret l
              /\ map (field "news_url") l
                 = map (fun s => Some (PyStr (row_url s)))
                       (filter has_link (before ++ after)))).
Proof.
  intros Hr. split.
  - intros st. now apply extract_without_link.
  - intros page_num st resp w1 before after Hget Hstatus Hrows.
    assert (Heq : fetch_page_content E page_num st
                  = extract_rows E (before ++ after) []
                      (mk_state w1 (trace st ++ [EGet (listing_url page_num)])
                                (all_entries st))).
    { rewrite (fetch_page_served _ _ _ _ Hget Hstatus), Hrows.
      now apply extract_rows_skip. }
    split; [exact Heq |]. rewrite Heq.
    match goal with |- context [extract_rows E ?rows ?acc ?s] =>
      destruct (extract_rows E rows acc s) as [res st'] eqn:Hrun end.
    split.
    + intros s news_url. exact (extract_rows_requests _ _ _ _ _ Hrun s news_url).
    + intros Hserved.
      destruct (extract_rows_returns (before ++ after) []
                  (mk_state w1 (trace st ++ [EGet (listing_url page_num)])
                            (all_entries st))) as (l & st2 & Hret).
      rewrite Hrun in Hret. inversion Hret; subst res st2.
      exists l. split; [reflexivity |].
      exact (extract_rows_urls Hserved _ _ _ _ _ Hrun).
Qed.

(** *** The pool and the loop over completed tasks *)

Lemma submit_all_eq (pages : list Z) st :
  submit_all E pages st = (Ret tt, with_events st (map ESubmit pages)).
Proof.
  revert st. induction pages as [| p pages IH]; intros st; simpl.
  - unfold ret, with_events. simpl. rewrite app_nil_r. now destruct st.
  - unfold bind, emit. rewrite IH. unfold with_events. simpl.
    now rewrite <- app_assoc.
Qed.

Lemma run_tasks_app (before after : list Z) st :
  run_tasks E (before ++ after) st
  = let (rs1, st1) := run_tasks E before st in
    let (rs2, st2) := run_tasks E after st1 in
    (rs1 ++ rs2, st2).
Proof.
  revert st. induction before as [| p before IH]; intros st; simpl.
  - now destruct (run_tasks E after st).
  - destruct (fetch_page_content E p st) as [r st1].
    rewrite IH. destruct (run_tasks E before st1) as [rs1 st2].
    now destruct (run_tasks E after st2).
Qed.

(** Every task handed to the pool runs: its request is in the trace. *)
Lemma run_tasks_trace (pages : list Z) :
  forall st rs st',
    run_tasks E pages st = (rs, st') ->
    all_entries st' = all_entries st
    /\ (exists evs, trace st' = trace st ++ evs)
    /\ List.length rs = List.length pages
    /\ forall p, In p pages -> In (EGet (listing_url p)) (trace st').
Proof.
  induction pages as [| p pages IH]; intros st rs st' H; simpl in H.
  - inversion H; subst. repeat split; try reflexivity.
    + exists []. now rewrite app_nil_r.
    + intros q [].
  - destruct (fetch_page_content E p st) as [r st1] eqn:Hfetch.
    destruct (run_tasks E pages st1) as [rs1 st2] eqn:Hrest.
    inversion H; subst.
    destruct (fetch_page_trace _ _ _ _ Hfetch) as (Ha1 & evs1 & Ht1).
    destruct (IH _ _ _ Hrest) as (Ha2 & (evs2 & Ht2) & Hlen & Hin).
    repeat split.
    + congruence.
    + exists ((EGet (listing_url p) :: evs1) ++ evs2).
      now rewrite Ht2, Ht1, app_assoc.
    + simpl. now rewrite Hlen.
    + intros q [-> | Hq]; [| now apply Hin].
      rewrite Ht2, Ht1. apply in_or_app. left. apply in_or_app. right.
      now left.
Qed.

Lemma with_entries_nil st : with_entries st [] = st.
Proof. unfold with_entries. rewrite app_nil_r. now destruct st. Qed.

(** When every task returned, the loop keeps the results up to the first
    empty one. *)
Lemma collect_until_empty (rs : list (list entry)) :
  forall st,
    collect E (map Ret rs) st
    = (Ret tt, with_entries st (List.concat (until_empty rs))).
Proof.
  induction rs as [| r rs IH]; intros st; simpl.
  - unfold ret. now rewrite with_entries_nil.
  - destruct r as [| en r].
    + unfold ret. simpl. now rewrite with_entries_nil.
    + unfold bind, extend. rewrite IH. unfold with_entries. simpl.
      now rewrite <- app_assoc.
Qed.

(** An empty result ends the loop whatever the later tasks gave. *)
Lemma collect_stops (rs : list (list entry))
  (later : list (result (list entry))) :
  Forall (fun page_entries => page_entries <> []) rs ->
  forall st,
    collect E (map Ret rs ++ Ret [] :: later) st
    = (Ret tt, with_entries st (List.concat rs)).
Proof.
  induction 1 as [| r rs Hr Hrs IH]; intros st; simpl.
  - unfold ret. now rewrite with_entries_nil.
  - destruct r as [| en r]; [contradiction |].
    unfold bind, extend. rewrite IH. unfold with_entries. simpl.
    now rewrite <- app_assoc.
Qed.

Lemma run_pool_eq (pages : list Z) st :
  run_pool E pages st
  = let (futures, st1) :=
      run_tasks E (as_completed E pages) (with_events st (map ESubmit pages)) in
    collect E futures st1.
Proof. unfold run_pool, bind. now rewrite submit_all_eq. Qed.


(** *** [scrape_all_pages] and [main] *)

(** Once the page count is known, [main] is the pool followed by the
    closing events, when the writer accepts the table. *)
Lemma main_with_page_count st resp w1 s (max_pages : Z) st_pool :
  requests_get E first_url (world st) = (Ret resp, w1) ->
  select_total_page E (text resp) = Some s ->
  PyInt.of_str s = Some max_pages ->
  run_pool E (py_range 1 (max_pages + 1))
    (mk_state w1 (trace st ++ [EGet first_url]) [])
  = (Ret tt, st_pool) ->
  writable (all_entries st_pool) = true ->
  main E st
  = (Ret tt, with_events st_pool (closing_events (all_entries st_pool))).
Proof.
  intros Hget Htotal Hint Hpool Hw.
  unfold main, new_scraper, scrape_all_pages, save_to_excel, bind.
  unfold http_get. simpl. rewrite Hget, Htotal. unfold int_of. rewrite Hint.
  unfold ret at 1. rewrite Hpool.
  unfold log, emit, ret, with_events, closing_events. simpl. rewrite Hw.
  simpl. now rewrite <- !app_assoc.
Qed.

(** When the writer refuses the table, [main] ends with its exception and a
    partial file. *)
Lemma main_with_page_count_refused st resp w1 s (max_pages : Z) st_pool :
  requests_get E first_url (world st) = (Ret resp, w1) ->
  select_total_page E (text resp) = Some s ->
  PyInt.of_str s = Some max_pages ->
  run_pool E (py_range 1 (max_pages + 1))
    (mk_state w1 (trace st ++ [EGet first_url]) [])
  = (Ret tt, st_pool) ->
  writable (all_entries st_pool) = false ->
  main E st
  = (Raise IllegalCharacterError,
     with_events st_pool (failed_closing_events (all_entries st_pool))).
Proof.
  intros Hget Htotal Hint Hpool Hw.
  unfold main, new_scraper, scrape_all_pages, save_to_excel, bind.
  unfold http_get. simpl. rewrite Hget, Htotal. unfold int_of. rewrite Hint.
  unfold ret at 1. rewrite Hpool.
  unfold log, emit, ret, raise, with_events, failed_closing_events. simpl.
  rewrite Hw. simpl. now rewrite <- !app_assoc.
Qed.

(** When the pool raises, so does [main], at once. *)
Lemma main_with_pool_raise st resp w1 s (max_pages : Z) (e : exn) st_pool :
  requests_get E first_url (world st) = (Ret resp, w1) ->
  select_total_page E (text resp) = Some s ->
  PyInt.of_str s = Some max_pages ->
  run_pool E (py_range 1 (max_pages + 1))
    (mk_state w1 (trace st ++ [EGet first_url]) [])
  = (Raise e, st_pool) ->
  main E st = (Raise e, st_pool).
Proof.
  intros Hget Htotal Hint Hpool.
  unfold main, new_scraper, scrape_all_pages, bind.
  unfold http_get. simpl. rewrite Hget, Htotal. unfold int_of. rewrite Hint.
  unfold ret at 1. now rewrite Hpool.
Qed.

(** X20: when [requests.get] raises for the first archive page, or the
    pagination text is missing from the page it returns, or [int] rejects
    that text, [main] ends by raising; the only event of the run is the
    request of the first page, so no task was submitted and nothing was
    saved. *)
Theorem setup_failure_aborts_run st :
  setup_fails E (world st) ->
  exists e st',
    main E st = (Raise e, st')
    /\ trace st' = trace st ++ [EGet first_url]
    /\ all_entries st' = [].
Proof.
  unfold setup_fails. intros Hfail.
  unfold main, new_scraper, scrape_all_pages, bind, http_get. simpl.
  destruct (requests_get E first_url (world st)) as [[resp | e] w1];
    simpl in Hfail.
  - unfold int_of. destruct (select_total_page E (text resp)) as [s |].
    + rewrite Hfail. eexists _, _. simpl. auto.
    + eexists _, _. simpl. auto.
  - eexists _, _. auto.
Qed.

(** The loop over the completed tasks, whatever they gave: it keeps the
    entries up to the first empty result or raised task, and raises what
    that task raised. *)
Lemma collect_spec (futures : list (result (list entry))) :
  forall st,
    collect E futures st
    = (match first_raise futures with
       | Some e => Raise e
       | None => Ret tt
       end, with_entries st (kept futures)).
Proof.
  induction futures as [| f futures IH]; intros st; simpl.
  - unfold ret. now rewrite with_entries_nil.
  - destruct f as [[| en l] | e].
    + unfold ret. now rewrite with_entries_nil.
    + unfold bind, extend. rewrite IH. unfold with_entries. simpl.
      destruct (first_raise futures); now rewrite <- app_assoc.
    + unfold raise. now rewrite with_entries_nil.
Qed.

(** Nothing that completes after an empty result counts. *)
Lemma kept_until_empty (futures later : list (result (list entry))) :
  kept (futures ++ Ret [] :: later) = kept futures
  /\ first_raise (futures ++ Ret [] :: later) = first_raise futures.
Proof.
  induction futures as [| f futures [IHk IHr]]; simpl; [auto |].
  destruct f as [[| en l] | e]; auto.
  now rewrite IHk, IHr.
Qed.

(** C2, as the code has it: in a run that got past the first page, when the
    listing fetch of a page fails, its task returns the empty list, and the
    driver takes that for the end of the archive: nothing of that page nor
    of any task completed after it is collected.  The aggregate is what the
    loop kept of the tasks completed before it: their entries up to the
    first empty result or raised task among them.  If such a task raised,
    the run ends with its exception; otherwise the run goes on to write the
    aggregate, and ends normally unless the writer refuses a character of
    the table, in which case it raises and leaves a partial file. *)
Theorem fetch_error_ends_aggregation st resp w1 s (max_pages : Z)
  (before after : list Z) (page_num : Z)
  (futures : list (result (list entry))) st_before :
  requests_get E first_url (world st) = (Ret resp, w1) ->
  select_total_page E (text resp) = Some s ->
  PyInt.of_str s = Some max_pages ->
  as_completed E (py_range 1 (max_pages + 1)) = before ++ page_num :: after ->
  run_tasks E before
    (mk_state w1
       (trace st ++ EGet first_url :: map ESubmit (py_range 1 (max_pages + 1)))
       [])
  = (futures, st_before) ->
  listing_fetch_error E page_num (world st_before) ->
  fst (fetch_page_content E page_num st_before) = Ret []
  /\ exists st',
       all_entries st' = kept futures
       /\ match first_raise futures with
          | Some e => main E st = (Raise e, st')
          | None =>
              if writable (kept futures)
              then main E st = (Ret tt, st')
                   /\ In (ESave default_filename (kept futures)) (trace st')
              else main E st = (Raise IllegalCharacterError, st')
                   /\ In (EPartial default_filename) (trace st')
          end.
Proof.
  intros Hget Htotal Hint Horder Hbefore Herr.
  split; [now rewrite (fetch_page_error _ _ Herr) |].
  set (pages := py_range 1 (max_pages + 1)) in *.
  set (st1 := mk_state w1 (trace st ++ [EGet first_url]) ([] : list entry)).
  assert (Hpool : exists st_pool,
             run_pool E pages st1
             = (match first_raise futures with
                | Some e => Raise e
                | None => Ret tt
                end, st_pool)
             /\ all_entries st_pool = kept futures).
  { rewrite run_pool_eq, Horder, run_tasks_app.
    unfold with_events, st1. simpl. rewrite <- app_assoc. simpl.
    rewrite Hbefore. simpl.
    rewrite (fetch_page_error _ _ Herr).
    destruct (run_tasks E after _) as [later st_done] eqn:Hafter.
    rewrite collect_spec.
    destruct (kept_until_empty futures later) as [-> ->].
    eexists. split; [reflexivity |]. simpl.
    destruct (run_tasks_trace _ _ _ _ Hafter) as (Ha & _).
    destruct (run_tasks_trace _ _ _ _ Hbefore) as (Hb & _).
    rewrite Ha. simpl. rewrite Hb. reflexivity. }
  destruct Hpool as (st_pool & Hpool & Hentries).
  destruct (first_raise futures) as [e |].
  - exists st_pool. split; [exact Hentries |].
    exact (main_with_pool_raise _ _ _ _ _ _ _ Hget Htotal Hint Hpool).
  - rewrite <- Hentries.
    destruct (writable (all_entries st_pool)) eqn:Hw.
    + exists (with_events st_pool (closing_events (all_entries st_pool))).
      split; [reflexivity |]. split.
      * exact (main_with_page_count _ _ _ _ _ _ Hget Htotal Hint Hpool Hw).
      * simpl. apply in_or_app. right. unfold closing_events. simpl. auto.
    + exists (with_events st_pool
                (failed_closing_events (all_entries st_pool))).
      split; [reflexivity |]. split.
      * exact (main_with_page_count_refused _ _ _ _ _ _ Hget Htotal Hint
                 Hpool Hw).
      * simpl. apply in_or_app. right.
        unfold failed_closing_events. simpl. auto.
Qed.

(** *** More on [safe_translate]: the calls it makes, the words it keeps *)

(** X1: the calls [safe_translate] makes to the translation service: none
    for a text shorter than three characters, one with the whole text when it
    fits in [chunk_size], and otherwise one per chunk, in order. *)
Theorem safe_translate_calls text chunk_size st :
  translate_calls (trace (snd (safe_translate E text chunk_size st)))
  = translate_calls (trace st)
    ++ (if String.length text <? 3 then []
        else if chunk_size <? String.length text
             then make_chunks text chunk_size
             else [text]).
Proof.
  destruct (String.length text <? 3) eqn:H3.
  - apply Nat.ltb_lt in H3. unfold safe_translate.
    rewrite (short_guard _ H3). simpl. now rewrite app_nil_r.
  - apply Nat.ltb_ge in H3.
    destruct (chunk_size <? String.length text) eqn:Hc.
    + apply Nat.ltb_lt in Hc.
      destruct (safe_translate_chunked text chunk_size st H3 Hc)
        as (st' & -> & Hcalls).
      exact Hcalls.
    + apply Nat.ltb_ge in Hc.
      rewrite safe_translate_single by lia.
      destruct (translate_text E text (world st)) as [[t | e] w]; simpl;
        now rewrite translate_calls_app.
Qed.

Lemma split_from_word (w : string) :
  nospace w = true ->
  forall s acc, PyStr.split_from (w ++ s) acc = PyStr.split_from s (acc ++ w).
Proof.
  induction w as [| c w IH]; intros Hw s acc; simpl.
  - now rewrite append_empty_r.
  - simpl in Hw. apply andb_true_iff in Hw as [Hc Hw].
    apply negb_true_iff in Hc. rewrite Hc.
    rewrite (IH Hw). now rewrite append_assoc.
Qed.

Lemma split_from_break (w s : string) :
  is_word w -> breaks s ->
  PyStr.split_from s w = w :: PyStr.split_from s EmptyString.
Proof.
  intros [Hne _] Hs. apply truthy_nonempty in Hne.
  destruct s as [| c s]; simpl in *.
  - now rewrite Hne.
  - now rewrite Hs, Hne.
Qed.

Lemma split_from_space (w s : string) :
  is_word w ->
  PyStr.split_from (String " " s) w = w :: PyStr.split_from s EmptyString.
Proof.
  intros [Hne _]. apply truthy_nonempty in Hne. simpl. now rewrite Hne.
Qed.

Lemma split_join_words (ws : list string) :
  Forall is_word ws ->
  forall s, breaks s ->
    PyStr.split_from (PyStr.join " " ws ++ s) EmptyString
    = ws ++ PyStr.split_from s EmptyString.
Proof.
  induction 1 as [| w ws Hw Hws IH]; intros s Hs; [reflexivity |].
  destruct ws as [| y ws].
  - change (PyStr.join " " [w]) with w.
    rewrite (split_from_word w (proj2 Hw)). simpl append.
    now apply split_from_break.
  - rewrite join_cons by discriminate.
    specialize (IH s Hs).
    remember (PyStr.join " " (y :: ws)) as joined.
    rewrite append_assoc.
    rewrite (split_from_word w (proj2 Hw)). simpl append.
    rewrite (split_from_space _ _ Hw).
    rewrite IH. reflexivity.
Qed.

Lemma split_join_groups (groups : list (list string)) :
  Forall (Forall is_word) groups ->
  PyStr.split (PyStr.join " " (map (PyStr.join " ") groups))
  = List.concat groups.
Proof.
  unfold PyStr.split.
  induction 1 as [| g groups Hg Hgroups IH]; [reflexivity |].
  destruct groups as [| g2 groups].
  - simpl. rewrite <- (append_empty_r (PyStr.join " " g)).
    rewrite split_join_words; [| exact Hg | exact I].
    simpl. reflexivity.
  - simpl map. rewrite join_cons by discriminate.
    rewrite split_join_words; [| exact Hg | reflexivity].
    simpl List.concat. f_equal. exact IH.
Qed.

Lemma Forall_groups {A} (P : A -> Prop) (groups : list (list A)) :
  Forall P (List.concat groups) -> Forall (Forall P) groups.
Proof.
  induction groups as [| g groups IH]; simpl; intros H; constructor.
  - apply Forall_app in H. tauto.
  - apply IH. apply Forall_app in H. tauto.
Qed.

(** X2: chunking loses and adds no word: the words of the chunks put
    together again with single spaces are the words of the text. *)
Theorem make_chunks_round_trip text chunk_size :
  PyStr.split (PyStr.join " " (make_chunks text chunk_size)) = PyStr.split text.
Proof.
  destruct (make_chunks_groups text chunk_size) as (groups & -> & Hcat & _).
  rewrite <- Hcat. apply split_join_groups, Forall_groups.
  rewrite Hcat. apply split_words.
Qed.

Lemma chunk_fallbacks_all_fail (chunks : list string) :
  (forall t w, exists e, fst (translate_text E t w) = Raise e) ->
  forall w, chunk_fallbacks E chunks w = chunks.
Proof.
  intros Hfail. induction chunks as [| chunk rest IH]; intros w; simpl.
  - reflexivity.
  - destruct (Hfail chunk w) as (e & He).
    destruct (translate_text E chunk w) as [r w1]. simpl in He. subst r.
    now rewrite IH.
Qed.

(** X3: when the translation service fails on every call, a text of at
    least three characters that is longer than [chunk_size] comes back as
    its chunks joined by single spaces, a text that has the same words as
    the one given. *)
Theorem safe_translate_long_text_all_calls_fail text chunk_size st :
  (forall t w, exists e, fst (translate_text E t w) = Raise e) ->
  3 <= String.length text -> chunk_size < String.length text ->
  fst (safe_translate E text chunk_size st)
  = Ret (PyStr.join " " (make_chunks text chunk_size))
  /\ PyStr.split (PyStr.join " " (make_chunks text chunk_size))
     = PyStr.split text.
Proof.
  intros Hfail H3 Hc. split.
  - destruct (safe_translate_chunked text chunk_size st H3 Hc) as (st' & -> & _).
    simpl. now rewrite chunk_fallbacks_all_fail.
  - destruct (make_chunks_groups text chunk_size) as (groups & -> & Hcat & _).
    rewrite <- Hcat. apply split_join_groups, Forall_groups.
    rewrite Hcat. apply split_words.
Qed.

(** *** White space: [strip] followed by [re.sub(r'\s+', ' ', ...)] *)

Lemma rstrip_tail (c : ascii) (s : string) :
  PyStr.rstrip (String c s) = String c s -> PyStr.rstrip s = s.
Proof.
  simpl. destruct (PyStr.rstrip s) as [| x r] eqn:Hr.
  - destruct (PyStr.isspace c); [discriminate |].
    intros H. now inversion H.
  - intros H. now inversion H.
Qed.

Lemma rstrip_space_head (c : ascii) (s : string) :
  PyStr.isspace c = true -> PyStr.rstrip (String c s) = String c s ->
  PyStr.rstrip s <> EmptyString.
Proof.
  intros Hc. simpl. destruct (PyStr.rstrip s) as [| x r]; [| discriminate].
  now rewrite Hc.
Qed.

Lemma split_from_nil (s : string) :
  forall acc, PyStr.split_from s acc = [] ->
              acc = EmptyString /\ PyStr.rstrip s = EmptyString.
Proof.
  induction s as [| c s IH]; intros acc; simpl.
  - destruct acc; simpl; [auto | discriminate].
  - destruct (PyStr.isspace c) eqn:Hc.
    + destruct acc; simpl; [| discriminate].
      intros H. destruct (IH _ H) as [_ Hr]. now rewrite Hr.
    + intros H. destruct (IH _ H) as [Hacc _].
      destruct acc; discriminate.
Qed.

Lemma length_lstrip (s : string) :
  String.length (PyStr.lstrip s) <= String.length s.
Proof.
  induction s as [| c s IH]; simpl; [lia |].
  destruct (PyStr.isspace c); simpl; lia.
Qed.

Lemma collapse_matches_split (s : string) :
  PyStr.rstrip s = s ->
  (forall acc,
      nospace acc = true ->
      acc <> EmptyString \/ PyStr.lstrip s = s ->
      (acc ++ PyStr.collapse_from s false)%string
      = PyStr.join " " (PyStr.split_from s acc))
  /\ PyStr.collapse_from s true
     = PyStr.join " " (PyStr.split_from s EmptyString).
Proof.
  induction s as [| c s IH]; intros Hr.
  - split; [| reflexivity]. intros acc _ _. simpl.
    rewrite append_empty_r. now destruct acc.
  - specialize (IH (rstrip_tail _ _ Hr)). destruct IH as [IHP IHQ].
    destruct (PyStr.isspace c) eqn:Hc.
    + assert (Hne : PyStr.split_from s EmptyString <> []).
      { intros Hnil. apply split_from_nil in Hnil as [_ Hnil].
        now apply (rstrip_space_head c s Hc Hr). }
      split.
      * intros acc Hacc [Hne_acc | Hl].
        -- simpl. rewrite Hc.
           apply truthy_nonempty in Hne_acc. rewrite Hne_acc.
           rewrite join_cons by exact Hne. now rewrite IHQ.
        -- exfalso. simpl in Hl. rewrite Hc in Hl.
           pose proof (length_lstrip s) as Hlen. rewrite Hl in Hlen.
           simpl in Hlen. lia.
      * simpl. rewrite Hc. exact IHQ.
    + split.
      * intros acc Hacc _. simpl. rewrite Hc.
        rewrite <- (IHP (acc ++ String c EmptyString)%string).
        -- now rewrite append_assoc.
        -- rewrite nospace_append, Hacc. simpl. now rewrite Hc.
        -- left. destruct acc; discriminate.
      * simpl. rewrite Hc.
        rewrite <- (IHP (String c EmptyString)).
        -- reflexivity.
        -- simpl. now rewrite Hc.
        -- left. discriminate.
Qed.

Lemma rstrip_idempotent (s : string) :
  PyStr.rstrip (PyStr.rstrip s) = PyStr.rstrip s.
Proof.
  induction s as [| c s IH]; [reflexivity |]. simpl.
  destruct (PyStr.rstrip s) as [| x r] eqn:Hr.
  - destruct (PyStr.isspace c) eqn:Hc; [reflexivity |].
    simpl. now rewrite Hc.
  - change (PyStr.rstrip (String c (String x r)))
      with (match PyStr.rstrip (String x r) with
            | EmptyString =>
                if PyStr.isspace c then EmptyString else String c EmptyString
            | String _ _ as kept => String c kept
            end).
    now rewrite IH.
Qed.

Lemma lstrip_starts (s : string) :
  match PyStr.lstrip s with
  | EmptyString => True
  | String c _ => PyStr.isspace c = false
  end.
Proof.
  induction s as [| c s IH]; simpl; [exact I |].
  destruct (PyStr.isspace c) eqn:Hc; [exact IH | exact Hc].
Qed.

Lemma lstrip_strip (s : string) :
  PyStr.lstrip (PyStr.strip s) = PyStr.strip s.
Proof.
  unfold PyStr.strip. pose proof (lstrip_starts s) as H.
  destruct (PyStr.lstrip s) as [| c u]; [reflexivity |].
  simpl. destruct (PyStr.rstrip u); rewrite ?H; simpl; now rewrite H.
Qed.

Lemma split_lstrip (s : string) :
  PyStr.split_from (PyStr.lstrip s) EmptyString = PyStr.split_from s EmptyString.
Proof.
  induction s as [| c s IH]; [reflexivity |]. simpl.
  destruct (PyStr.isspace c) eqn:Hc; [exact IH |].
  simpl. now rewrite Hc.
Qed.

Lemma split_rstrip (s : string) :
  forall acc, PyStr.split_from (PyStr.rstrip s) acc = PyStr.split_from s acc.
Proof.
  induction s as [| c s IH]; intros acc; [reflexivity |]. simpl.
  destruct (PyStr.rstrip s) as [| x r] eqn:Hr.
  - destruct (PyStr.isspace c) eqn:Hc.
    + rewrite <- IH. simpl. now destruct (PyStr.truthy acc).
    + simpl. rewrite Hc. now rewrite <- IH.
  - simpl. destruct (PyStr.isspace c); now rewrite <- !IH.
Qed.

Lemma split_strip (s : string) : PyStr.split (PyStr.strip s) = PyStr.split s.
Proof.
  unfold PyStr.split, PyStr.strip. now rewrite split_rstrip, split_lstrip.
Qed.

Lemma collapse_strip_words (s : string) :
  PyStr.collapse_ws (PyStr.strip s) = PyStr.join " " (PyStr.split s).
Proof.
  assert (Hr : PyStr.rstrip (PyStr.strip s) = PyStr.strip s)
    by apply rstrip_idempotent.
  destruct (collapse_matches_split _ Hr) as [HP _].
  specialize (HP EmptyString eq_refl (or_intror (lstrip_strip s))).
  simpl in HP. unfold PyStr.collapse_ws. rewrite HP.
  fold (PyStr.split (PyStr.strip s)). now rewrite split_strip.
Qed.

(** X4: a text that is stripped and then has its runs of white space
    replaced by one space, as the summary and the details of an entry are,
    is the words of the text joined by single spaces: no white space is left
    at either end, none but single spaces inside. *)
Theorem strip_collapse_is_words_joined (s : string) :
  PyStr.collapse_ws (PyStr.strip s) = PyStr.join " " (PyStr.split s).
Proof. apply collapse_strip_words. Qed.

(** *** What [strptime] accepts *)

Lemma in_cls (p : ascii -> bool) (s g r : string) :
  In (g, r) (Datetime.cls p s) ->
  exists c, g = String c EmptyString /\ p c = true /\ s = String c r.
Proof.
  unfold Datetime.cls. destruct s as [| c s]; [intros [] |].
  destruct (p c) eqn:Hp; [| intros []].
  intros [H | []]. inversion H; subst. now exists c.
Qed.

Lemma in_seq2 (a b : Datetime.matcher) (s g r : string) :
  In (g, r) (Datetime.seq2 a b s) ->
  exists g1 r1 g2,
    In (g1, r1) (a s) /\ In (g2, r) (b r1) /\ g = (g1 ++ g2)%string.
Proof.
  unfold Datetime.seq2. intros H. apply in_flat_map in H as ([g1 r1] & Ha & H).
  apply in_map_iff in H as ([g2 r2] & Heq & Hb). simpl in Heq.
  inversion Heq; subst. now exists g1, r1, g2.
Qed.

Lemma in_alt (a b : Datetime.matcher) (s g r : string) :
  In (g, r) (Datetime.alt a b s) -> In (g, r) (a s) \/ In (g, r) (b s).
Proof. unfold Datetime.alt. apply in_app_or. Qed.

Lemma in_range (lo hi : ascii) (s g r : string) :
  In (g, r) (Datetime.range lo hi s) ->
  exists c, g = String c EmptyString
            /\ nat_of_ascii lo <= nat_of_ascii c <= nat_of_ascii hi.
Proof.
  intros H. apply in_cls in H as (c & -> & Hp & _). exists c.
  split; [reflexivity |]. apply andb_true_iff in Hp as [H1 H2].
  apply Nat.leb_le in H1, H2. auto.
Qed.

Lemma in_digit (s g r : string) :
  In (g, r) (Datetime.digit s) ->
  exists c, g = String c EmptyString /\ 48 <= nat_of_ascii c <= 57.
Proof.
  intros H. apply in_cls in H as (c & -> & Hp & _). exists c.
  split; [reflexivity |]. unfold PyStr.isdigit in Hp.
  apply andb_true_iff in Hp as [H1 H2]. apply Nat.leb_le in H1, H2. auto.
Qed.

Lemma in_chr (a : ascii) (s g r : string) :
  In (g, r) (Datetime.chr a s) -> g = String a EmptyString.
Proof.
  intros H. apply in_cls in H as (c & -> & Hp & _).
  apply Ascii.eqb_eq in Hp. now subst.
Qed.

Lemma digit_not_space (c : ascii) :
  48 <= nat_of_ascii c <= 57 -> PyStr.isspace c = false.
Proof.
  intros H. unfold PyStr.isspace.
  replace (nat_of_ascii c <=? 13) with false by (symmetry; apply Nat.leb_gt; lia).
  replace (28 <=? nat_of_ascii c) with true by (symmetry; apply Nat.leb_le; lia).
  replace (nat_of_ascii c <=? 32) with false by (symmetry; apply Nat.leb_gt; lia).
  replace (nat_of_ascii c =? 133) with false by (symmetry; apply Nat.eqb_neq; lia).
  replace (nat_of_ascii c =? 160) with false by (symmetry; apply Nat.eqb_neq; lia).
  now rewrite andb_false_r.
Qed.

Lemma group_int_one (c : ascii) :
  48 <= nat_of_ascii c <= 57 ->
  Datetime.group_int (String c EmptyString) = nat_of_ascii c - 48.
Proof.
  intros H. unfold Datetime.group_int. simpl.
  rewrite (digit_not_space c H). reflexivity.
Qed.

Lemma group_int_two (c d : ascii) :
  48 <= nat_of_ascii c <= 57 ->
  Datetime.group_int (String c (String d EmptyString))
  = 10 * (nat_of_ascii c - 48) + (nat_of_ascii d - 48).
Proof.
  intros H. unfold Datetime.group_int. simpl PyStr.lstrip.
  rewrite (digit_not_space c H). unfold PyStr.digits_val, PyStr.digit_val. lia.
Qed.

Lemma re_H_bound (s g r : string) :
  In (g, r) (Datetime.re_H s) -> Datetime.group_int g <= 23.
Proof.
  unfold Datetime.re_H. intros H.
  apply in_alt in H as [H | H]; [| apply in_alt in H as [H | H]].
  - apply in_seq2 in H as (g1 & r1 & g2 & H1 & H2 & ->).
    apply in_chr in H1. apply in_range in H2 as (d & -> & Hd). subst g1.
    change (nat_of_ascii "0") with 48 in Hd.
    change (nat_of_ascii "3") with 51 in Hd.
    simpl append.
    rewrite group_int_two by (change (nat_of_ascii "2") with 50; lia).
    change (nat_of_ascii "2") with 50. lia.
  - apply in_seq2 in H as (g1 & r1 & g2 & H1 & H2 & ->).
    apply in_range in H1 as (c & -> & Hc). apply in_digit in H2 as (d & -> & Hd).
    change (nat_of_ascii "0") with 48 in Hc.
    change (nat_of_ascii "1") with 49 in Hc.
    simpl append. rewrite group_int_two by lia. lia.
  - apply in_digit in H as (c & -> & Hc). rewrite group_int_one by lia. lia.
Qed.

Lemma re_M_bound (s g r : string) :
  In (g, r) (Datetime.re_M s) -> Datetime.group_int g <= 59.
Proof.
  unfold Datetime.re_M. intros H. apply in_alt in H as [H | H].
  - apply in_seq2 in H as (g1 & r1 & g2 & H1 & H2 & ->).
    apply in_range in H1 as (c & -> & Hc). apply in_digit in H2 as (d & -> & Hd).
    change (nat_of_ascii "0") with 48 in Hc.
    change (nat_of_ascii "5") with 53 in Hc.
    simpl append. rewrite group_int_two by lia. lia.
  - apply in_digit in H as (c & -> & Hc). rewrite group_int_one by lia. lia.
Qed.

Lemma in_bind_match {A} (m : list (string * string))
  (k : string -> string -> list A) (x : A) :
  In x (Datetime.bind_match m k) -> exists g r, In (g, r) m /\ In x (k g r).
Proof.
  unfold Datetime.bind_match. intros H.
  apply in_flat_map in H as ([g r] & Hm & Hk). now exists g, r.
Qed.

Lemma format_matches_time (s rest : string) (dt : Datetime.datetime) :
  In (dt, rest) (Datetime.format_matches s) ->
  Datetime.hour dt <= 23 /\ Datetime.minute dt <= 59.
Proof.
  unfold Datetime.format_matches. intros H.
  repeat (apply in_bind_match in H;
          let g := fresh "g" in let r := fresh "r" in
          let Hm := fresh "Hm" in
          destruct H as (g & r & Hm & H)).
  destruct H as [H | []]. inversion H; subst. simpl.
  split; [eapply re_H_bound | eapply re_M_bound]; eassumption.
Qed.

Lemma strptime_valid (s : string) (dt : Datetime.datetime) :
  Datetime.strptime s = Some dt ->
  Datetime.valid_date dt = true
  /\ Datetime.hour dt <= 23 /\ Datetime.minute dt <= 59.
Proof.
  unfold Datetime.strptime. intros H.
  destruct (Datetime.format_matches s) as [| [dt0 rest] more] eqn:Hm;
    [discriminate |].
  destruct rest; [| discriminate].
  destruct (Datetime.valid_date dt0) eqn:Hv; [| discriminate].
  inversion H; subst. split; [exact Hv |].
  apply (format_matches_time s EmptyString). rewrite Hm. now left.
Qed.


Lemma two_digits (n : nat) :
  n <= 99 -> String.length (PyStr.zfill 2 (PyStr.of_nat n)) = 2.
Proof.
  intros Hn.
  assert (Hall : forallb (fun k => String.length (PyStr.zfill 2 (PyStr.of_nat k)) =? 2)
                         (seq 0 100) = true)
    by (vm_compute; reflexivity).
  rewrite forallb_forall in Hall. apply Nat.eqb_eq, Hall, in_seq. lia.
Qed.

Lemma four_digits (n : nat) :
  1000 <= n <= 9999 -> String.length (PyStr.of_nat n) = 4.
Proof.
  intros Hn.
  assert (Hall : forallb (fun k => String.length (PyStr.of_nat k) =? 4)
                         (seq 1000 9000) = true)
    by (vm_compute; reflexivity).
  rewrite forallb_forall in Hall. apply Nat.eqb_eq, Hall, in_seq.
  change 1000 with (10 * 100) in *. change 9000 with (90 * 100).
  change 9999 with (99 * 100 + 99) in *. lia.
Qed.

Lemma days_in_month_bound (y m : nat) : Datetime.days_in_month y m <= 31.
Proof.
  unfold Datetime.days_in_month.
  do 12 (destruct m as [| m];
         [cbv iota beta; try destruct (Datetime.is_leap y); lia |]).
  lia.
Qed.

Lemma valid_date_bounds (dt : Datetime.datetime) :
  Datetime.valid_date dt = true ->
  1 <= Datetime.year dt <= 9999
  /\ 1 <= Datetime.month dt <= 12
  /\ 1 <= Datetime.day dt <= Datetime.days_in_month (Datetime.year dt)
                                                    (Datetime.month dt).
Proof.
  unfold Datetime.valid_date. intros H.
  repeat (apply andb_true_iff in H as [H ?]).
  repeat match goal with
         | Hle : (_ <=? _) = true |- _ => apply Nat.leb_le in Hle
         end.
  lia.
Qed.

(** X5: what [format_date] returns is the pair [("N/A", "N/A")], for an input
    that does not parse, or the rendering of a date that exists (month 1 to
    12, day within the month, leap years counted) with an hour up to 23 and a
    minute up to 59; the time then has five characters, and the date ten
    from the year 1000 on. *)
Theorem format_date_output (d : option string) st
  (date time : string) st' :
  format_date E d st = (Ret (date, time), st') ->
  (parses d = false /\ date = "N/A" /\ time = "N/A")
  \/ (exists dt,
         date = Datetime.strftime_date dt
         /\ time = Datetime.strftime_time dt
         /\ 1 <= Datetime.month dt <= 12
         /\ 1 <= Datetime.day dt
              <= Datetime.days_in_month (Datetime.year dt) (Datetime.month dt)
         /\ Datetime.hour dt <= 23 /\ Datetime.minute dt <= 59
         /\ String.length time = 5
         /\ (1000 <= Datetime.year dt -> String.length date = 10)).
Proof.
  intros H. destruct (parses d) eqn:Hp.
  - right. unfold parses in Hp. destruct d as [s |]; [| discriminate].
    destruct (Datetime.strptime s) as [dt |] eqn:Hs; [| discriminate].
    rewrite (format_date_parsed _ _ _ Hs) in H. inversion H; subst.
    destruct (strptime_valid _ _ Hs) as (Hv & Hh & Hm).
    destruct (valid_date_bounds _ Hv) as (Hy & Hmo & Hd).
    pose proof (days_in_month_bound (Datetime.year dt) (Datetime.month dt)).
    exists dt. repeat split; try lia.
    + unfold Datetime.strftime_time. rewrite !length_append.
      rewrite !two_digits by lia. reflexivity.
    + intros Hy4. unfold Datetime.strftime_date. rewrite !length_append.
      rewrite !two_digits by lia. rewrite four_digits by lia. reflexivity.
  - left. rewrite (format_date_unparsed _ _ Hp) in H. inversion H; subst. auto.
Qed.

(** *** Rows and pages: what fails, what is kept *)

(** X6: a row whose detail request fails, by any exception or by a 4xx/5xx
    status, gives no entry: [extract_news_entry] returns [None], logs one
    extraction error and makes no translation call. *)
Theorem detail_fetch_failure_skips_row (r : row) st (news_url : string) :
  h3_href r = Some news_url -> news_url <> EmptyString ->
  detail_fetch_error E (base_url ++ news_url) (world st) ->
  extract_news_entry E r st
  = (Ret None,
     mk_state (snd (requests_get E (base_url ++ news_url) (world st)))
       (trace st ++ [EGet (base_url ++ news_url); ELog ErrExtract])
       (all_entries st)).
Proof.
  intros Hhref Hne Herr. unfold detail_fetch_error in Herr.
  unfold extract_news_entry. rewrite Hhref.
  apply truthy_nonempty in Hne. rewrite Hne. simpl negb. cbv iota.
  unfold try_except, bind.
  destruct (requests_get E (base_url ++ news_url) (world st))
    as [[resp | e] w1] eqn:Hget; simpl in Herr.
  - rewrite (http_get_eq _ _ _ _ Hget).
    rewrite (raise_for_status_error _ _ Herr). simpl.
    unfold log, emit, ret. simpl. now rewrite <- app_assoc.
  - rewrite (http_get_eq _ _ _ _ Hget). simpl.
    unfold log, emit, ret. simpl. now rewrite <- app_assoc.
Qed.

(** X7: a page task raises exactly when [requests.get] raises, for the
    listing request, an exception outside the [RequestException] family, and
    it raises that exception; nothing that goes wrong with a row gets out of
    the task. *)
Theorem fetch_page_raises_iff (page_num : Z) st (e : exn) :
  fst (fetch_page_content E page_num st) = Raise e
  <-> fst (requests_get E (listing_url page_num) (world st)) = Raise e
      /\ is_request_exception e = false.
Proof.
  split.
  - intros H. destruct (fetch_page_content E page_num st) as [r st'] eqn:Hf.
    simpl in H. subst r. exact (fetch_page_raises _ _ _ _ Hf).
  - intros [Hget He]. unfold fetch_page_content, try_except, bind, http_get.
    destruct (requests_get E (listing_url page_num) (world st)) as [r w1].
    simpl in Hget. subst r. now rewrite He.
Qed.

Lemma extract_rows_shape (rows : list row) :
  forall acc st l st',
    extract_rows E rows acc st = (Ret l, st') ->
    exists new,
      l = acc ++ new /\ Forall complete new
      /\ List.length new <= List.length rows.
Proof.
  induction rows as [| r rows IH]; intros acc st l st' H; simpl in H.
  - inversion H; subst. exists []. rewrite app_nil_r. simpl. auto.
  - unfold bind in H. pose proof (extract_none_or_complete r st) as Hr.
    destruct (extract_news_entry E r st) as [[[en |] | e] st1]; simpl in Hr.
    + destruct (IH _ _ _ _ H) as (new & -> & Hnew & Hlen).
      exists (en :: new). rewrite <- app_assoc. simpl.
      split; [reflexivity |]. split; [now constructor | lia].
    + destruct (IH _ _ _ _ H) as (new & -> & Hnew & Hlen).
      exists new. simpl. split; [reflexivity |]. split; [assumption | lia].
    + contradiction.
Qed.

(** X8: the entries a page task returns all carry the nine fields; there is
    at most one per listing row of the served page, and none when the
    listing request failed. *)
Theorem page_entries_complete_and_bounded (page_num : Z) st
  (l : list entry) st' :
  fetch_page_content E page_num st = (Ret l, st') ->
  Forall complete l
  /\ match fst (requests_get E (listing_url page_num) (world st)) with
     | Ret resp =>
         List.length l <= List.length (select_news_rows E (text resp))
     | Raise _ => l = []
     end.
Proof.
  intros H.
  destruct (requests_get E (listing_url page_num) (world st))
    as [[resp | e] w1] eqn:Hget; simpl.
  - destruct (error_status resp) eqn:Hstatus.
    + assert (Herr : listing_fetch_error E page_num (world st)).
      { unfold listing_fetch_error. now rewrite Hget. }
      rewrite (fetch_page_error _ _ Herr) in H. inversion H; subst.
      simpl. split; [constructor | lia].
    + rewrite (fetch_page_served _ _ _ _ Hget Hstatus) in H.
      destruct (extract_rows_shape _ _ _ _ _ H) as (new & -> & Hnew & Hlen).
      simpl. auto.
  - destruct (is_request_exception e) eqn:He.
    + assert (Herr : listing_fetch_error E page_num (world st)).
      { unfold listing_fetch_error. now rewrite Hget. }
      rewrite (fetch_page_error _ _ Herr) in H. inversion H; subst.
      split; [constructor | reflexivity].
    + unfold fetch_page_content, try_except, bind, http_get in H.
      rewrite Hget, He in H. discriminate.
Qed.

Lemma extract_rows_all_served (Hserved : always_served E) (rows : list row) :
  forall acc st l st',
    extract_rows E rows acc st = (Ret l, st') ->
    List.length l = List.length acc + List.length (filter has_link rows).
Proof.
  induction rows as [| r rows IH]; intros acc st l st' H; simpl in H.
  - inversion H; subst. simpl. lia.
  - unfold bind in H. simpl filter. unfold has_link at 1.
    destruct (h3_href r) as [news_url |] eqn:Hhref.
    + destruct news_url as [| c u] eqn:Hu.
      * rewrite (extract_with_empty_link _ _ Hhref) in H. simpl.
        now apply IH in H.
      * rewrite <- Hu in *.
        assert (Hne : news_url <> EmptyString) by (subst; discriminate).
        destruct (Hserved (base_url ++ news_url)%string (world st))
          as (resp & w1 & Hget & Hstatus).
        destruct (extract_fetched r st news_url resp w1 Hhref Hne Hget Hstatus)
          as (d & t & h & s & b & st2 & Heq).
        rewrite Heq in H. apply IH in H. rewrite H, length_app.
        apply truthy_nonempty in Hne. rewrite Hne. simpl. lia.
    + rewrite (extract_without_link _ _ Hhref) in H. now apply IH in H.
Qed.

(** X9: on a site that answers every request with a page, a page task
    returns exactly one entry per listing row that has a non-empty link, in
    spite of any failure of the date parser or of the translation
    service. *)
Theorem page_entries_count_when_served (page_num : Z) st :
  always_served E ->
  exists resp l st',
    fst (requests_get E (listing_url page_num) (world st)) = Ret resp
    /\ fetch_page_content E page_num st = (Ret l, st')
    /\ List.length l
       = List.length (filter has_link (select_news_rows E (text resp))).
Proof.
  intros Hserved.
  destruct (Hserved (listing_url page_num) (world st))
    as (resp & w1 & Hget & Hstatus).
  rewrite (fetch_page_served _ _ _ _ Hget Hstatus).
  match goal with |- context [extract_rows E ?rows ?acc ?s] =>
    destruct (extract_rows_returns rows acc s) as (l & st' & Heq) end.
  exists resp, l, st'. rewrite Hget. split; [reflexivity |].
  split; [exact Heq |].
  now rewrite (extract_rows_all_served Hserved _ _ _ _ _ Heq).
Qed.

(** *** The events of a run *)

Lemma adds_ret {A} (P : event -> Prop) (a : A) : adds P (ret (E := E) a).
Proof.
  intros st r st' H. inversion H; subst. split; [reflexivity |].
  exists []. rewrite app_nil_r. auto.
Qed.

Lemma adds_raise {A} (P : event -> Prop) (e : exn) :
  adds P (raise (E := E) (A := A) e).
Proof.
  intros st r st' H. inversion H; subst. split; [reflexivity |].
  exists []. rewrite app_nil_r. auto.
Qed.

Lemma adds_emit (P : event -> Prop) (ev : event) :
  P ev -> adds P (emit (E := E) ev).
Proof.
  intros Hev st r st' H. inversion H; subst. simpl. split; [reflexivity |].
  exists [ev]. auto.
Qed.

Lemma adds_bind {A B} (P : event -> Prop) (c : M E A) (k : A -> M E B) :
  adds P c -> (forall a, adds P (k a)) -> adds P (bind c k).
Proof.
  intros Hc Hk st r st' H. unfold bind in H.
  destruct (c st) as [[a | e] st1] eqn:Hcst.
  - destruct (Hc _ _ _ Hcst) as (Ha & evs1 & Ht1 & Hp1).
    destruct (Hk a _ _ _ H) as (Hb & evs2 & Ht2 & Hp2).
    split; [congruence |]. exists (evs1 ++ evs2).
    rewrite Ht2, Ht1, app_assoc. split; [reflexivity |].
    apply Forall_app. auto.
  - inversion H; subst. now apply (Hc _ _ _ Hcst).
Qed.

Lemma adds_try {A} (P : event -> Prop) (body handler : M E A)
  (handles : exn -> bool) :
  adds P body -> adds P handler -> adds P (try_except body handles handler).
Proof.
  intros Hb Hh st r st' H. unfold try_except in H.
  destruct (body st) as [[a | e] st1] eqn:Hbst.
  - inversion H; subst. now apply (Hb _ _ _ Hbst).
  - destruct (Hb _ _ _ Hbst) as (Ha & evs1 & Ht1 & Hp1).
    destruct (handles e).
    + destruct (Hh _ _ _ H) as (Hb2 & evs2 & Ht2 & Hp2).
      split; [congruence |]. exists (evs1 ++ evs2).
      rewrite Ht2, Ht1, app_assoc. split; [reflexivity |].
      apply Forall_app. auto.
    + inversion H; subst. split; [exact Ha |]. now exists evs1.
Qed.

Lemma adds_http_get (P : event -> Prop) (url : string) :
  P (EGet url) -> adds P (http_get E url).
Proof.
  intros Hp st r st' H. unfold http_get in H.
  destruct (requests_get E url (world st)) as [r0 w1].
  inversion H; subst. simpl. split; [reflexivity |]. exists [EGet url]. auto.
Qed.

Lemma adds_translate_call (P : event -> Prop) text :
  P (ETranslate text) -> adds P (translate_call E text).
Proof.
  intros Hp st r st' H. unfold translate_call in H.
  destruct (translate_text E text (world st)) as [r0 w1].
  inversion H; subst. simpl. split; [reflexivity |].
  exists [ETranslate text]. auto.
Qed.

Lemma adds_handler {A} (P : event -> Prop) (r : log_record) (a : A) :
  P (ELog r) -> adds P (log (E := E) r ;;; ret a).
Proof.
  intros Hp. apply adds_bind; intros; [now apply adds_emit | apply adds_ret].
Qed.

Lemma prefix_append (a b : string) : String.prefix a (a ++ b) = true.
Proof.
  induction a as [| c a IH]; simpl; [now destruct b |].
  destruct (ascii_dec c c); [exact IH | contradiction].
Qed.

Lemma task_translate_chunks (chunks : list string) :
  forall acc, adds task_event (translate_chunks E chunks acc).
Proof.
  induction chunks as [| chunk rest IH]; intros acc; simpl.
  - apply adds_ret.
  - apply adds_bind; [| intros; apply IH].
    apply adds_try; [now apply adds_translate_call | now apply adds_handler].
Qed.

Lemma task_safe_translate text chunk_size :
  adds task_event (safe_translate E text chunk_size).
Proof.
  unfold safe_translate.
  destruct (negb (PyStr.truthy text) || (String.length text <? 3)).
  - apply adds_ret.
  - apply adds_try; [| now apply adds_handler].
    destruct (chunk_size <? String.length text).
    + apply adds_bind; [apply task_translate_chunks | intros; apply adds_ret].
    + now apply adds_translate_call.
Qed.

Lemma task_format_date (d : option string) : adds task_event (format_date E d).
Proof.
  apply adds_try; [| now apply adds_handler].
  destruct d as [s |]; [| apply adds_raise].
  destruct (Datetime.strptime s); [apply adds_ret | apply adds_raise].
Qed.

Lemma task_raise_for_status (resp : response) :
  adds task_event (raise_for_status E resp).
Proof.
  unfold raise_for_status.
  destruct ((400 <=? status_code resp) && (status_code resp <? 600))%Z;
    [apply adds_raise | apply adds_ret].
Qed.

Lemma task_extract_news_entry (r : row) :
  adds task_event (extract_news_entry E r).
Proof.
  apply adds_try; [| now apply adds_handler].
  destruct (h3_href r) as [news_url |]; [| apply adds_ret].
  destruct (negb (PyStr.truthy news_url)); [apply adds_ret |].
  apply adds_bind; [apply adds_http_get, prefix_append | intros resp].
  apply adds_bind; [apply task_raise_for_status | intros _].
  apply adds_bind; [apply task_format_date | intros [news_date news_time]].
  apply adds_bind; [apply task_safe_translate | intros heading].
  apply adds_bind; [apply task_safe_translate | intros summary].
  apply adds_bind; [apply task_safe_translate | intros details].
  apply adds_ret.
Qed.

Lemma task_extract_rows (rows : list row) :
  forall acc, adds task_event (extract_rows E rows acc).
Proof.
  induction rows as [| r rows IH]; intros acc; simpl.
  - apply adds_ret.
  - apply adds_bind; [apply task_extract_news_entry |].
    intros [en |]; apply IH.
Qed.

Lemma task_fetch_page_content (page_num : Z) :
  adds task_event (fetch_page_content E page_num).
Proof.
  apply adds_try; [| now apply adds_handler].
  apply adds_bind; [apply adds_http_get, prefix_append | intros resp].
  apply adds_bind; [apply task_raise_for_status | intros _].
  destruct (select_news_rows E (text resp)); [apply adds_ret |].
  apply task_extract_rows.
Qed.

Lemma fetch_page_complete (page_num : Z) st (l : list entry) st' :
  fetch_page_content E page_num st = (Ret l, st') -> Forall complete l.
Proof.
  intros H.
  destruct (requests_get E (listing_url page_num) (world st))
    as [[resp | e] w1] eqn:Hget.
  - destruct (error_status resp) eqn:Hstatus.
    + assert (Herr : listing_fetch_error E page_num (world st)).
      { unfold listing_fetch_error. now rewrite Hget. }
      rewrite (fetch_page_error _ _ Herr) in H. inversion H; subst. constructor.
    + rewrite (fetch_page_served _ _ _ _ Hget Hstatus) in H.
      destruct (extract_rows_shape _ _ _ _ _ H) as (new & -> & Hnew & _).
      exact Hnew.
  - destruct (is_request_exception e) eqn:He.
    + assert (Herr : listing_fetch_error E page_num (world st)).
      { unfold listing_fetch_error. now rewrite Hget. }
      rewrite (fetch_page_error _ _ Herr) in H. inversion H; subst. constructor.
    + unfold fetch_page_content, try_except, bind, http_get in H.
      rewrite Hget, He in H. discriminate.
Qed.

Lemma run_tasks_events (pages : list Z) :
  forall st rs st',
    run_tasks E pages st = (rs, st') ->
    all_entries st' = all_entries st
    /\ complete_results rs
    /\ exists evs, trace st' = trace st ++ evs /\ Forall task_event evs.
Proof.
  induction pages as [| p pages IH]; intros st rs st' H; simpl in H.
  - inversion H; subst. split; [reflexivity |]. split; [constructor |].
    exists []. rewrite app_nil_r. auto.
  - destruct (fetch_page_content E p st) as [r st1] eqn:Hfetch.
    destruct (run_tasks E pages st1) as [rs1 st2] eqn:Hrest.
    inversion H; subst.
    destruct (task_fetch_page_content p _ _ _ Hfetch) as (Ha1 & evs1 & Ht1 & Hp1).
    destruct (IH _ _ _ Hrest) as (Ha2 & Hc & evs2 & Ht2 & Hp2).
    split; [congruence |]. split.
    + constructor; [| exact Hc].
      destruct r as [l | e]; [| exact I].
      exact (fetch_page_complete _ _ _ _ Hfetch).
    + exists (evs1 ++ evs2). rewrite Ht2, Ht1, app_assoc.
      split; [reflexivity |]. apply Forall_app. auto.
Qed.

(** The loop over the completed tasks adds no event and keeps the entries
    complete. *)
Lemma collect_keeps (futures : list (result (list entry))) :
  complete_results futures ->
  forall st r st',
    collect E futures st = (r, st') ->
    world st' = world st /\ trace st' = trace st
    /\ (Forall complete (all_entries st) -> Forall complete (all_entries st')).
Proof.
  induction 1 as [| f futures Hf Hfs IH]; intros st r st' H; simpl in H.
  - inversion H; subst. auto.
  - destruct f as [[| en l] | e].
    + inversion H; subst. auto.
    + unfold bind, extend in H. simpl in H.
      destruct (IH _ _ _ H) as (Hw & Ht & Hc). simpl in *.
      split; [exact Hw |]. split; [exact Ht |].
      intros Hall. apply Hc. apply Forall_app. auto.
    + inversion H; subst. auto.
Qed.


Lemma task_event_not_save (evs : list event) :
  Forall task_event evs -> forall f rows, ~ In (ESave f rows) evs.
Proof.
  intros Hall f rows Hin. rewrite Forall_forall in Hall.
  exact (Hall _ Hin).
Qed.

Lemma task_event_get (evs : list event) :
  Forall task_event evs ->
  forall url, In (EGet url) evs -> String.prefix base_url url = true.
Proof.
  intros Hall url Hin. rewrite Forall_forall in Hall.
  exact (Hall _ Hin).
Qed.

(** The pool: the submissions, then the events of the tasks; the entries
    stay complete. *)
Lemma run_pool_shape (pages : list Z) st r st' :
  run_pool E pages st = (r, st') ->
  (Forall complete (all_entries st) -> Forall complete (all_entries st'))
  /\ exists evs,
       trace st' = trace st ++ map ESubmit pages ++ evs
       /\ Forall task_event evs.
Proof.
  rewrite run_pool_eq.
  destruct (run_tasks E (as_completed E pages)
              (with_events st (map ESubmit pages))) as [futures st1] eqn:Hrun.
  intros Hcollect.
  destruct (run_tasks_events _ _ _ _ Hrun) as (Ha & Hres & evs & Ht & Hp).
  destruct (collect_keeps _ Hres _ _ _ Hcollect) as (_ & Ht2 & Hc).
  split.
  - intros Hall. apply Hc. rewrite Ha. exact Hall.
  - exists evs. rewrite Ht2, Ht. simpl. rewrite <- app_assoc. auto.
Qed.

Lemma task_event_not_partial (evs : list event) :
  Forall task_event evs -> forall f, ~ In (EPartial f) evs.
Proof.
  intros Hall f Hin. rewrite Forall_forall in Hall.
  exact (Hall _ Hin).
Qed.

(** A run, whatever its end: the first request, the submissions, the events
    of the tasks and then its last events: the closing events when it ends
    normally, those of a refused write when the writer raises, none when it
    raises before the write. *)
Lemma main_shape st r st' :
  main E st = (r, st') ->
  Forall complete (all_entries st')
  /\ exists pages evs last_events,
       Forall task_event evs
       /\ trace st'
          = trace st ++ (EGet first_url :: map ESubmit pages) ++ evs
            ++ last_events
       /\ ((r = Ret tt /\ writable (all_entries st') = true
            /\ last_events = closing_events (all_entries st'))
           \/ (r = Raise IllegalCharacterError
               /\ writable (all_entries st') = false
               /\ last_events = failed_closing_events (all_entries st'))
           \/ (exists e, r = Raise e /\ last_events = [])).
Proof.
  unfold main, new_scraper, scrape_all_pages, save_to_excel, bind, http_get.
  simpl.
  destruct (requests_get E first_url (world st)) as [[resp | e] w1].
  2: { intros H. inversion H; subst. simpl. split; [constructor |].
       exists [], [], []. simpl. split; [constructor |].
       split; [rewrite ?app_nil_r; reflexivity |]. right. right. now exists e. }
  unfold int_of.
  destruct (select_total_page E (text resp)) as [s |].
  2: { intros H. inversion H; subst. simpl. split; [constructor |].
       exists [], [], []. simpl. split; [constructor |].
       split; [rewrite ?app_nil_r; reflexivity |].
       right. right. now exists TypeError. }
  destruct (PyInt.of_str s) as [max_pages |].
  2: { intros H. inversion H; subst. simpl. split; [constructor |].
       exists [], [], []. simpl. split; [constructor |].
       split; [rewrite ?app_nil_r; reflexivity |].
       right. right. now exists ValueError. }
  unfold ret at 1.
  destruct (run_pool E (py_range 1 (max_pages + 1))
              (mk_state w1 (trace st ++ [EGet first_url]) []))
    as [[[] | e] st_pool] eqn:Hpool;
    destruct (run_pool_shape _ _ _ _ Hpool) as (Hc & evs & Ht & Hp);
    simpl in Hc, Ht.
  - unfold log, emit, ret, raise. simpl.
    destruct (writable (all_entries st_pool)) eqn:Hw;
      intros H; inversion H; subst; simpl;
      (split; [apply Hc; constructor |]).
    + exists (py_range 1 (max_pages + 1)), evs,
        (closing_events (all_entries st_pool)).
      split; [exact Hp |]. split; [| left; auto].
      rewrite Ht. unfold closing_events. simpl. now rewrite <- !app_assoc.
    + exists (py_range 1 (max_pages + 1)), evs,
        (failed_closing_events (all_entries st_pool)).
      split; [exact Hp |]. split; [| right; left; auto].
      rewrite Ht. unfold failed_closing_events. simpl.
      now rewrite <- !app_assoc.
  - intros H. inversion H; subst.
    split; [apply Hc; constructor |].
    exists (py_range 1 (max_pages + 1)), evs, [].
    split; [exact Hp |]. split; [| right; right; now exists e].
    rewrite Ht. rewrite app_nil_r. simpl. now rewrite <- !app_assoc.
Qed.

(** X10: the table is written only as the last step of a run: the events
    before the last ones write nothing.  When [main] returns, the writer
    accepted the table and the run ends with the closing events, which save
    all of [all_entries] under the default file name.  When [main] raises,
    either nothing at all was written, or the writer refused a character of
    the table: it raised [IllegalCharacterError] and left a partial file.
    In every case each entry of [all_entries] carries the nine fields. *)
Theorem main_saves_once_at_the_end st :
  Forall complete (all_entries (snd (main E st)))
  /\ exists evs last_events,
       (forall f rows, ~ In (ESave f rows) evs)
       /\ (forall f, ~ In (EPartial f) evs)
       /\ trace (snd (main E st)) = trace st ++ evs ++ last_events
       /\ ((fst (main E st) = Ret tt
            /\ writable (all_entries (snd (main E st))) = true
            /\ last_events = closing_events (all_entries (snd (main E st))))
           \/ (fst (main E st) = Raise IllegalCharacterError
               /\ writable (all_entries (snd (main E st))) = false
               /\ last_events
                  = failed_closing_events (all_entries (snd (main E st))))
           \/ (exists e, fst (main E st) = Raise e /\ last_events = [])).
Proof.
  destruct (main E st) as [r st'] eqn:Hmain. simpl.
  destruct (main_shape _ _ _ Hmain)
    as (Hc & pages & evs & last_events & Hp & Ht & Hend).
  split; [exact Hc |].
  exists ((EGet first_url :: map ESubmit pages) ++ evs), last_events.
  split; [| split; [| split; [| exact Hend]]].
  - intros f rows Hin. apply in_app_or in Hin as [Hin | Hin].
    + destruct Hin as [Hin | Hin]; [discriminate |].
      apply in_map_iff in Hin as (p & Hin & _). discriminate.
    + exact (task_event_not_save evs Hp f rows Hin).
  - intros f Hin. apply in_app_or in Hin as [Hin | Hin].
    + destruct Hin as [Hin | Hin]; [discriminate |].
      apply in_map_iff in Hin as (p & Hin & _). discriminate.
    + exact (task_event_not_partial evs Hp f Hin).
  - rewrite Ht. now rewrite <- !app_assoc.
Qed.

(** X11: a run requests nothing outside the site: the address of every
    request it makes starts with [base_url], the detail pages included,
    whatever the links found in the listings. *)
Theorem main_requests_stay_under_base_url st :
  exists evs,
    trace (snd (main E st)) = trace st ++ evs
    /\ forall url, In (EGet url) evs -> String.prefix base_url url = true.
Proof.
  destruct (main E st) as [r st'] eqn:Hmain. simpl.
  destruct (main_shape _ _ _ Hmain)
    as (_ & pages & evs & last_events & Hp & Ht & Hend).
  eexists. split; [exact Ht |].
  intros url Hin. apply in_app_or in Hin as [Hin | Hin].
  - destruct Hin as [Hin | Hin].
    + inversion Hin; subst. reflexivity.
    + apply in_map_iff in Hin as (p & Hin & _). discriminate.
  - apply in_app_or in Hin as [Hin | Hin].
    + exact (task_event_get evs Hp url Hin).
    + destruct Hend as [(_ & _ & ->) | [(_ & _ & ->) | (e & _ & ->)]];
        simpl in Hin;
        repeat (destruct Hin as [Hin | Hin]; [discriminate |]);
        destruct Hin.
Qed.

Lemma run_tasks_all_return (Hnet : only_request_errors E) (pages : list Z) :
  forall st, exists rs st', run_tasks E pages st = (map Ret rs, st').
Proof.
  induction pages as [| p pages IH]; intros st; simpl.
  - now exists [], st.
  - destruct (fetch_page_content E p st) as [[l | e] st1] eqn:Hfetch.
    + destruct (IH st1) as (rs & st2 & ->). now exists (l :: rs), st2.
    + destruct (fetch_page_raises _ _ _ _ Hfetch) as [Hget He].
      rewrite (Hnet _ _ _ Hget) in He. discriminate.
Qed.

(** X12: when [requests.get] fails only by exceptions of the
    [RequestException] family, the first page is served and its page count
    is read, the run gets to writing what it collected, whatever fails in
    the pages, the rows, the dates and the translations.  It then ends
    normally, the table saved, when the writer accepts the table; the only
    other end is the writer refusing a character of the table:
    [IllegalCharacterError] and a partial file. *)
Theorem run_completes_when_only_requests_fail st :
  only_request_errors E ->
  ~ setup_fails E (world st) ->
  exists st',
    (writable (all_entries st') = true
     /\ main E st = (Ret tt, st')
     /\ In (ESave default_filename (all_entries st')) (trace st'))
    \/ (writable (all_entries st') = false
        /\ main E st = (Raise IllegalCharacterError, st')
        /\ In (EPartial default_filename) (trace st')).
Proof.
  intros Hnet Hsetup. unfold setup_fails in Hsetup.
  destruct (requests_get E first_url (world st)) as [[resp | e] w1] eqn:Hget;
    simpl in Hsetup; [| now contradiction Hsetup].
  destruct (select_total_page E (text resp)) as [s |] eqn:Htotal;
    [| now contradiction Hsetup].
  destruct (PyInt.of_str s) as [max_pages |] eqn:Hint;
    [| now contradiction Hsetup].
  set (pages := py_range 1 (max_pages + 1)).
  set (st1 := mk_state w1 (trace st ++ [EGet first_url]) ([] : list entry)).
  destruct (run_tasks_all_return Hnet (as_completed E pages)
              (with_events st1 (map ESubmit pages))) as (rs & st2 & Hrun).
  set (st_pool := with_entries st2 (List.concat (until_empty rs))).
  assert (Hpool : run_pool E pages st1 = (Ret tt, st_pool)).
  { rewrite run_pool_eq, Hrun. apply collect_until_empty. }
  destruct (writable (all_entries st_pool)) eqn:Hw.
  - exists (with_events st_pool (closing_events (all_entries st_pool))).
    left. split; [exact Hw |]. split.
    + exact (main_with_page_count _ _ _ _ _ _ Hget Htotal Hint Hpool Hw).
    + simpl. apply in_or_app. right. unfold closing_events. simpl. auto.
  - exists (with_events st_pool (failed_closing_events (all_entries st_pool))).
    right. split; [exact Hw |]. split.
    + exact (main_with_page_count_refused _ _ _ _ _ _ Hget Htotal Hint
               Hpool Hw).
    + simpl. apply in_or_app. right.
      unfold failed_closing_events. simpl. auto.
Qed.

Lemma py_range_empty (lo hi : Z) : (hi <= lo)%Z -> py_range lo hi = [].
Proof.
  intros H. unfold py_range.
  replace (Z.to_nat (hi - lo)) with 0 by lia. reflexivity.
Qed.

(** X13: a page count that is zero or negative makes no task: nothing is
    submitted, no listing is requested after the first page, and the run
    ends normally, saving an empty table. *)
Theorem no_task_when_page_count_not_positive st resp w1 s (max_pages : Z) :
  requests_get E first_url (world st) = (Ret resp, w1) ->
  select_total_page E (text resp) = Some s ->
  PyInt.of_str s = Some max_pages ->
  (max_pages <= 0)%Z ->
  as_completed E [] = [] ->
  main E st
  = (Ret tt,
     mk_state w1 (trace st ++ EGet first_url :: closing_events []) []).
Proof.
  intros Hget Htotal Hint Hmax Horder.
  assert (Hpool : run_pool E (py_range 1 (max_pages + 1))
                    (mk_state w1 (trace st ++ [EGet first_url]) [])
                  = (Ret tt, mk_state w1 (trace st ++ [EGet first_url]) [])).
  { rewrite py_range_empty by lia. rewrite run_pool_eq, Horder. simpl.
    unfold ret, with_events. simpl. now rewrite app_nil_r. }
  rewrite (main_with_page_count _ _ _ _ _ _ Hget Htotal Hint Hpool eq_refl).
  unfold with_events. simpl. now rewrite <- app_assoc.
Qed.

Lemma collect_reraises (rs : list (list entry)) (e : exn)
  (later : list (result (list entry))) :
  Forall (fun page_entries => page_entries <> []) rs ->
  forall st,
    collect E (map Ret rs ++ Raise e :: later) st
    = (Raise e, with_entries st (List.concat rs)).
Proof.
  induction 1 as [| r rs Hr Hrs IH]; intros st; simpl.
  - unfold raise. now rewrite with_entries_nil.
  - destruct r as [| en r]; [contradiction |].
    unfold bind, extend. rewrite IH. unfold with_entries. simpl.
    now rewrite <- app_assoc.
Qed.

(** X14: when a task that the driver gets to raised (no empty result was
    seen before it), the run ends with that exception; the entries of the
    tasks completed earlier are in [all_entries] but nothing is saved. *)
Theorem task_exception_aborts_without_saving st resp w1 s (max_pages : Z)
  (rs : list (list entry)) (e : exn) (later : list (result (list entry)))
  st_done :
  requests_get E first_url (world st) = (Ret resp, w1) ->
  select_total_page E (text resp) = Some s ->
  PyInt.of_str s = Some max_pages ->
  run_tasks E (as_completed E (py_range 1 (max_pages + 1)))
    (mk_state w1
       (trace st ++ EGet first_url :: map ESubmit (py_range 1 (max_pages + 1)))
       [])
  = (map Ret rs ++ Raise e :: later, st_done) ->
  Forall (fun page_entries => page_entries <> []) rs ->
  main E st
  = (Raise e, mk_state (world st_done) (trace st_done) (List.concat rs))
  /\ exists evs,
       trace st_done = trace st ++ evs
       /\ forall f rows, ~ In (ESave f rows) evs.
Proof.
  intros Hget Htotal Hint Hrun Hrs.
  split.
  - unfold main, new_scraper, scrape_all_pages, bind, http_get. simpl.
    rewrite Hget, Htotal. unfold int_of. rewrite Hint. unfold ret at 1.
    rewrite run_pool_eq. unfold with_events. simpl.
    rewrite <- app_assoc. simpl. rewrite Hrun.
    rewrite (collect_reraises rs e later Hrs).
    destruct (run_tasks_events _ _ _ _ Hrun) as (Ha & _).
    unfold with_entries. rewrite Ha. reflexivity.
  - destruct (run_tasks_events _ _ _ _ Hrun) as (_ & _ & evs & Ht & Hp).
    simpl in Ht.
    exists ((EGet first_url :: map ESubmit (py_range 1 (max_pages + 1)))
              ++ evs).
    split; [rewrite Ht; now rewrite <- app_assoc |].
    intros f rows Hin. apply in_app_or in Hin as [Hin | Hin].
    + destruct Hin as [Hin | Hin]; [discriminate |].
      apply in_map_iff in Hin as (p & Hin & _). discriminate.
    + exact (task_event_not_save evs Hp f rows Hin).
Qed.

(** *** More on the chunk loop: empty chunks, greedy chunks *)

Lemma chunk_loop_nonempty chunk_size (words : list string) :
  forall (groups : list (list string)) (cur : list string),
    Forall is_word words -> Forall is_word cur -> cur <> [] ->
    exists more cur',
      fold_left (chunk_step chunk_size) words
        (map (PyStr.join " ") groups, PyStr.join " " cur)
      = (map (PyStr.join " ") (groups ++ more), PyStr.join " " cur')
      /\ Forall is_word cur' /\ cur' <> []
      /\ Forall (fun g => g <> [] /\ Forall is_word g) more.
Proof.
  induction words as [| word words IH]; intros groups cur Hwords Hcur Hne.
  - exists [], cur. simpl. rewrite app_nil_r. auto.
  - inversion Hwords as [| ? ? Hword Hwords']; subst.
    cbn [fold_left]. rewrite (chunk_step_groups _ _ _ _ Hcur).
    destruct (chunk_size <? _).
    + destruct (IH (groups ++ [cur]) [word] Hwords')
        as (more & cur' & Hrun & Hcur' & Hne' & Hmore).
      { constructor; [exact Hword | constructor]. }
      { discriminate. }
      exists (cur :: more), cur'. rewrite Hrun, <- app_assoc. simpl.
      repeat split; auto.
    + destruct (IH groups (cur ++ [word]) Hwords')
        as (more & cur' & Hrun & Hcur' & Hne' & Hmore).
      { apply Forall_app. split; [exact Hcur |].
        constructor; [exact Hword | constructor]. }
      { destruct cur; discriminate. }
      exists more, cur'. auto.
Qed.

Lemma nonempty_groups_chunks (more : list (list string)) :
  Forall (fun g => g <> [] /\ Forall is_word g) more ->
  Forall (fun c => c <> EmptyString) (map (PyStr.join " ") more).
Proof.
  induction 1 as [| g more [Hne Hg] _ IH]; simpl; constructor; auto.
  now apply join_words_nonempty.
Qed.

(** X15: the chunks of a text that has words are never empty, but for the
    first one, which is the empty string exactly when the first word is at
    least [chunk_size] long: the loop then closes the chunk it has not
    begun. *)
Theorem first_chunk_empty_iff_first_word_long text chunk_size
  (w : string) (ws : list string) :
  PyStr.split text = w :: ws ->
  exists c rest,
    make_chunks text chunk_size = c :: rest
    /\ (c = EmptyString <-> chunk_size <= String.length w)
    /\ Forall (fun c' => c' <> EmptyString) rest.
Proof.
  intros Hsplit. pose proof (split_words text) as Hwords.
  rewrite Hsplit in Hwords. inversion Hwords as [| ? ? Hw Hws]; subst.
  unfold make_chunks. rewrite Hsplit. cbn [fold_left].
  change (@nil string, EmptyString)
    with (map (PyStr.join " ") [], PyStr.join " " []).
  rewrite (chunk_step_groups chunk_size [] [] w (Forall_nil _)).
  assert (Hw1 : Forall is_word [w]) by (constructor; [exact Hw | constructor]).
  assert (Hlast : forall cur', Forall is_word cur' -> cur' <> [] ->
                    PyStr.join " " cur' <> EmptyString)
    by (intros; now apply join_words_nonempty).
  destruct (chunk_size <? _) eqn:Hfull.
  - apply Nat.ltb_lt in Hfull. simpl in Hfull.
    destruct (chunk_loop_nonempty chunk_size ws ([] ++ [[]]) [w] Hws Hw1)
      as (more & cur' & Hrun & Hcur' & Hne' & Hmore); [discriminate |].
    rewrite Hrun. rewrite (join_empty_iff cur' Hcur').
    destruct cur' as [| x cur']; [contradiction |]. simpl negb. cbv iota.
    rewrite (strip_join _ Hcur').
    specialize (Hlast _ Hcur' Hne').
    set (last_chunk := PyStr.join " " (x :: cur')) in *.
    change (map (PyStr.join " ") (([] ++ [[]]) ++ more))
      with (EmptyString :: map (PyStr.join " ") more).
    exists EmptyString, (map (PyStr.join " ") more ++ [last_chunk]).
    split; [reflexivity |]. split; [split; [lia | reflexivity] |].
    apply Forall_app. split; [now apply nonempty_groups_chunks |].
    constructor; [exact Hlast | constructor].
  - apply Nat.ltb_ge in Hfull. simpl in Hfull.
    destruct (chunk_loop_nonempty chunk_size ws [] ([] ++ [w]) Hws Hw1)
      as (more & cur' & Hrun & Hcur' & Hne' & Hmore); [discriminate |].
    rewrite Hrun. rewrite (join_empty_iff cur' Hcur').
    destruct cur' as [| x cur']; [contradiction |]. simpl negb. cbv iota.
    rewrite (strip_join _ Hcur').
    specialize (Hlast _ Hcur' Hne').
    set (last_chunk := PyStr.join " " (x :: cur')) in *.
    change ([] ++ more) with more.
    assert (Hall : Forall (fun c' => c' <> EmptyString)
                     (map (PyStr.join " ") more ++ [last_chunk])).
    { apply Forall_app. split; [now apply nonempty_groups_chunks |].
      constructor; [exact Hlast | constructor]. }
    destruct (map (PyStr.join " ") more ++ [last_chunk])
      as [| c rest] eqn:Hchunks.
    { destruct (map (PyStr.join " ") more); discriminate. }
    inversion Hall; subst.
    exists c, rest. split; [reflexivity |]. split; [| assumption].
    split; [contradiction | lia].
Qed.

Lemma chain_snoc chunk_size (gs : list (list string)) (g next : list string) :
  chain chunk_size (gs ++ [g]) -> tight chunk_size g next ->
  chain chunk_size (gs ++ [g; next]).
Proof.
  induction gs as [| a gs IH]; simpl; intros H Ht.
  - tauto.
  - destruct H as [Ha H]. split; [| now apply IH].
    destruct gs; exact Ha.
Qed.

Lemma chain_last chunk_size (gs : list (list string)) (g g' : list string) :
  chain chunk_size (gs ++ [g]) ->
  gs = [] \/ hd_error g' = hd_error g ->
  chain chunk_size (gs ++ [g']).
Proof.
  induction gs as [| a gs IH]; simpl; intros H Hhd.
  - tauto.
  - destruct Hhd as [Hnil | Hhd]; [discriminate |].
    destruct H as [Ha H]. split; [| apply IH; auto].
    destruct gs as [| b gs]; [| exact Ha].
    simpl in *. unfold tight in *.
    destruct g' as [| x g']; [exact I |].
    destruct g as [| y g]; [discriminate |].
    simpl in Hhd. inversion Hhd; subst. exact Ha.
Qed.

Lemma chain_pair chunk_size (gs : list (list string)) :
  chain chunk_size gs ->
  forall pre g w g' post,
    gs = pre ++ g :: (w :: g') :: post ->
    chunk_size < String.length (PyStr.join " " g) + String.length w + 1.
Proof.
  intros H pre. revert gs H.
  induction pre as [| a pre IH]; intros gs H g w g' post ->; simpl in H.
  - exact (proj1 H).
  - exact (IH _ (proj2 H) g w g' post eq_refl).
Qed.

Lemma chunk_loop_chain chunk_size (words : list string) :
  forall (groups : list (list string)) (cur : list string),
    Forall is_word words -> Forall is_word cur ->
    chain chunk_size (groups ++ [cur]) -> (cur = [] -> groups = []) ->
    exists groups' cur',
      fold_left (chunk_step chunk_size) words
        (map (PyStr.join " ") groups, PyStr.join " " cur)
      = (map (PyStr.join " ") groups', PyStr.join " " cur')
      /\ List.concat groups' ++ cur' = List.concat groups ++ cur ++ words
      /\ Forall is_word cur'
      /\ chain chunk_size (groups' ++ [cur'])
      /\ (cur' = [] -> groups' = []).
Proof.
  induction words as [| word words IH];
    intros groups cur Hwords Hcur Hchain Hstart.
  - exists groups, cur. simpl. rewrite app_nil_r. auto.
  - inversion Hwords as [| ? ? Hword Hwords']; subst.
    cbn [fold_left]. rewrite (chunk_step_groups _ _ _ _ Hcur).
    destruct (chunk_size <? _) eqn:Hfull.
    + apply Nat.ltb_lt in Hfull.
      destruct (IH (groups ++ [cur]) [word] Hwords')
        as (groups' & cur' & Hrun & Hcat & Hcur' & Hchain' & Hstart').
      { constructor; [exact Hword | constructor]. }
      { rewrite <- app_assoc. apply chain_snoc; [exact Hchain | exact Hfull]. }
      { discriminate. }
      exists groups', cur'. split; [exact Hrun |]. split; [| auto].
      rewrite Hcat, concat_app. simpl. rewrite app_nil_r.
      now rewrite <- !app_assoc.
    + destruct (IH groups (cur ++ [word]) Hwords')
        as (groups' & cur' & Hrun & Hcat & Hcur' & Hchain' & Hstart').
      { apply Forall_app. split; [exact Hcur |].
        constructor; [exact Hword | constructor]. }
      { apply (chain_last chunk_size groups cur); [exact Hchain |].
        destruct cur as [| x cur]; [left; now apply Hstart | right; reflexivity]. }
      { destruct cur; discriminate. }
      exists groups', cur'. split; [exact Hrun |]. split; [| auto].
      rewrite Hcat. now rewrite <- !app_assoc.
Qed.

(** X16: the chunking is greedy: the chunks are runs of consecutive words of
    the text, and a chunk is closed only when the word that opens the next
    chunk would not fit: with that word and a space it would be longer than
    [chunk_size]. *)
Theorem make_chunks_greedy text chunk_size :
  exists groups,
    make_chunks text chunk_size = map (PyStr.join " ") groups
    /\ List.concat groups = PyStr.split text
    /\ forall pre g w g' post,
         groups = pre ++ g :: (w :: g') :: post ->
         chunk_size
         < String.length (PyStr.join " " g) + String.length w + 1.
Proof.
  unfold make_chunks.
  destruct (chunk_loop_chain chunk_size (PyStr.split text) [] []
              (split_words text) (Forall_nil _))
    as (groups & cur & Hrun & Hcat & Hcur & Hchain & Hstart);
    [simpl; auto | reflexivity |].
  simpl in Hrun, Hcat. rewrite Hrun. rewrite (join_empty_iff cur Hcur).
  destruct cur as [| x cur]; simpl negb; cbv iota.
  - exists groups. rewrite app_nil_r in Hcat.
    split; [reflexivity |]. split; [exact Hcat |].
    rewrite (Hstart eq_refl). intros pre g w g' post Heq.
    destruct pre; discriminate.
  - exists (groups ++ [x :: cur]).
    rewrite map_app. simpl map. rewrite (strip_join _ Hcur).
    split; [reflexivity |]. split.
    + rewrite concat_app. simpl. now rewrite app_nil_r.
    + now apply chain_pair.
Qed.

(** *** What an entry holds *)

Lemma safe_translate_result text chunk_size st :
  exists out st',
    safe_translate E text chunk_size st = (Ret out, st')
    /\ (String.length text < 3 -> out = EmptyString).
Proof.
  destruct (safe_translate_returns text chunk_size st) as (out & st' & Heq).
  exists out, st'. split; [exact Heq |].
  intros Hshort. unfold safe_translate in Heq.
  rewrite (short_guard _ Hshort) in Heq. now inversion Heq.
Qed.

Lemma format_date_result (d : option string) st :
  exists st',
    format_date E d st
    = (Ret match d with
           | Some s =>
               match Datetime.strptime s with
               | Some dt =>
                   (Datetime.strftime_date dt, Datetime.strftime_time dt)
               | None => ("N/A", "N/A")
               end
           | None => ("N/A", "N/A")
           end, st').
Proof.
  destruct d as [s |].
  - destruct (Datetime.strptime s) as [dt |] eqn:Hs.
    + exists st. now apply format_date_parsed.
    + eexists. apply format_date_unparsed. simpl. now rewrite Hs.
  - eexists. now apply format_date_unparsed.
Qed.

(** X17: what a returned entry holds.  The row had a non-empty link and its
    detail page was served; the address is [base_url] followed by the link
    as found; the heading is the transliteration of the stripped heading
    text; the summary and the details are the words of their text nodes
    joined by single spaces; the date and the time are those of the date
    text, or ["N/A"] twice; and the translation of a field shorter than
    three characters is the empty string. *)
Theorem returned_entry_fields (r : row) st (en : entry) :
  fst (extract_news_entry E r st) = Ret (Some en) ->
  exists news_url resp heading_translated summary_translated details_translated,
    h3_href r = Some news_url /\ news_url <> EmptyString
    /\ fst (requests_get E (base_url ++ news_url) (world st)) = Ret resp
    /\ error_status resp = false
    /\ let page := select_detail E (text resp) in
       let date_time :=
         match date_text page with
         | Some s =>
             match Datetime.strptime s with
             | Some dt => (Datetime.strftime_date dt, Datetime.strftime_time dt)
             | None => ("N/A", "N/A")
             end
         | None => ("N/A", "N/A")
         end in
       let heading := unidecode E (PyStr.strip (PyStr.join " " (h3_texts r))) in
       let summary :=
         PyStr.join " " (PyStr.split (PyStr.join " " (intro_texts page))) in
       let details :=
         PyStr.join " " (PyStr.split (PyStr.join " " (details_texts page))) in
       en = [("news_public_date", PyStr (fst date_time));
             ("news_public_time", PyStr (snd date_time));
             ("news_url", PyStr (base_url ++ news_url));
             ("news_heading", PyStr heading);
             ("news_heading_translated", PyStr heading_translated);
             ("news_summary", PyStr summary);
             ("news_summary_translated", PyStr summary_translated);
             ("news_details", PyStr details);
             ("news_details_translated", PyStr details_translated)]
       /\ (String.length heading < 3 -> heading_translated = EmptyString)
       /\ (String.length summary < 3 -> summary_translated = EmptyString)
       /\ (String.length details < 3 -> details_translated = EmptyString).
Proof.
  intros Hen.
  destruct (h3_href r) as [news_url |] eqn:Hhref.
  2: { rewrite (extract_without_link _ _ Hhref) in Hen. discriminate. }
  destruct news_url as [| c u] eqn:Hu.
  { rewrite (extract_with_empty_link _ _ Hhref) in Hen. discriminate. }
  rewrite <- Hu in *.
  assert (Hne : news_url <> EmptyString) by (subst; discriminate).
  assert (Htruthy : PyStr.truthy news_url = true) by now apply truthy_nonempty.
  unfold extract_news_entry in Hen. rewrite Hhref, Htruthy in Hen.
  simpl negb in Hen. cbv iota in Hen.
  unfold try_except, bind in Hen.
  destruct (requests_get E (base_url ++ news_url) (world st))
    as [[resp | e] w1] eqn:Hget.
  2: { rewrite (http_get_eq _ _ _ _ Hget) in Hen. discriminate. }
  rewrite (http_get_eq _ _ _ _ Hget) in Hen.
  destruct (error_status resp) eqn:Hstatus.
  { rewrite (raise_for_status_error _ _ Hstatus) in Hen. discriminate. }
  rewrite (raise_for_status_ok _ _ Hstatus) in Hen.
  match type of Hen with context [format_date E ?d ?s] =>
    destruct (format_date_result d s) as (st2 & Hdate) end.
  match type of Hdate with _ = (Ret ?p, _) =>
    remember p as date_time eqn:Hpair end.
  destruct date_time as [news_date news_time].
  rewrite Hdate in Hen. cbv beta iota in Hen.
  match type of Hen with context [safe_translate E ?t ?c st2] =>
    destruct (safe_translate_result t c st2) as (h & st3 & Hh & Hhs) end.
  rewrite Hh in Hen. cbv beta iota in Hen.
  match type of Hen with context [safe_translate E ?t ?c st3] =>
    destruct (safe_translate_result t c st3) as (s & st4 & Hs & Hss) end.
  rewrite Hs in Hen. cbv beta iota in Hen.
  match type of Hen with context [safe_translate E ?t ?c st4] =>
    destruct (safe_translate_result t c st4) as (b & st5 & Hb & Hbs) end.
  rewrite Hb in Hen. cbv beta iota in Hen. unfold ret in Hen.
  cbn [fst] in Hen. inversion Hen; subst en.
  exists news_url, resp, h, s, b.
  split; [reflexivity |]. split; [exact Hne |].
  split; [now rewrite Hget |]. split; [exact Hstatus |]. cbv zeta.
  rewrite <- !collapse_strip_words.
  rewrite <- Hpair. cbn [fst snd]. auto.
Qed.

(** *** On a site that does not change *)

Section Frozen.

Hypothesis Hfrozen : frozen E.

Lemma stable_ret {A} (a : A) : stable (ret (E := E) a).
Proof. intros st. split; [reflexivity | intros; reflexivity]. Qed.

Lemma stable_raise {A} (e : exn) : stable (raise (E := E) (A := A) e).
Proof. intros st. split; [reflexivity | intros; reflexivity]. Qed.

Lemma stable_emit (ev : event) : stable (emit (E := E) ev).
Proof. intros st. split; [reflexivity | intros; reflexivity]. Qed.

Lemma stable_bind {A B} (c : M E A) (k : A -> M E B) :
  stable c -> (forall a, stable (k a)) -> stable (bind c k).
Proof.
  intros Hc Hk st. destruct (Hc st) as [Hw Hr]. unfold bind.
  destruct (c st) as [[a | e] st1] eqn:Hcst; simpl in Hw.
  - destruct (Hk a st1) as [Hw1 Hr1]. split; [congruence |].
    intros st2 H2. specialize (Hr st2 H2).
    destruct (Hc st2) as [Hw2 _].
    destruct (c st2) as [r2 st3]. simpl in *. subst r2.
    apply Hr1. congruence.
  - split; [exact Hw |].
    intros st2 H2. specialize (Hr st2 H2).
    destruct (c st2) as [r2 st3]. simpl in *. now subst r2.
Qed.

Lemma stable_try {A} (body handler : M E A) (handles : exn -> bool) :
  stable body -> stable handler -> stable (try_except body handles handler).
Proof.
  intros Hb Hh st. destruct (Hb st) as [Hw Hr]. unfold try_except.
  destruct (body st) as [[a | e] st1] eqn:Hbst; simpl in Hw.
  - split; [exact Hw |].
    intros st2 H2. specialize (Hr st2 H2).
    destruct (body st2) as [r2 st3]. simpl in *. now subst r2.
  - destruct (Hh st1) as [Hw1 Hr1].
    split; [destruct (handles e); simpl; congruence |].
    intros st2 H2. specialize (Hr st2 H2).
    destruct (Hb st2) as [Hw2 _].
    destruct (body st2) as [r2 st3]. simpl in *. subst r2.
    destruct (handles e); [| reflexivity]. apply Hr1. congruence.
Qed.

Lemma stable_http_get (url : string) : stable (http_get E url).
Proof.
  intros st. unfold http_get. split.
  - pose proof (proj1 Hfrozen url (world st)) as H.
    destruct (requests_get E url (world st)). exact H.
  - intros st2 ->. now destruct (requests_get E url (world st)).
Qed.

Lemma stable_translate_call text : stable (translate_call E text).
Proof.
  intros st. unfold translate_call. split.
  - pose proof (proj2 Hfrozen text (world st)) as H.
    destruct (translate_text E text (world st)). exact H.
  - intros st2 ->. now destruct (translate_text E text (world st)).
Qed.

Lemma stable_handler {A} (r : log_record) (a : A) :
  stable (log (E := E) r ;;; ret a).
Proof. apply stable_bind; intros; [apply stable_emit | apply stable_ret]. Qed.

Lemma stable_translate_chunks (chunks : list string) :
  forall acc, stable (translate_chunks E chunks acc).
Proof.
  induction chunks as [| chunk rest IH]; intros acc; simpl.
  - apply stable_ret.
  - apply stable_bind; [| intros; apply IH].
    apply stable_try; [apply stable_translate_call | apply stable_handler].
Qed.

Lemma stable_safe_translate text chunk_size :
  stable (safe_translate E text chunk_size).
Proof.
  unfold safe_translate.
  destruct (negb (PyStr.truthy text) || (String.length text <? 3)).
  - apply stable_ret.
  - apply stable_try; [| apply stable_handler].
    destruct (chunk_size <? String.length text).
    + apply stable_bind; [apply stable_translate_chunks | intros; apply stable_ret].
    + apply stable_translate_call.
Qed.

Lemma stable_format_date (d : option string) : stable (format_date E d).
Proof.
  apply stable_try; [| apply stable_handler].
  destruct d as [s |]; [| apply stable_raise].
  destruct (Datetime.strptime s); [apply stable_ret | apply stable_raise].
Qed.

Lemma stable_raise_for_status (resp : response) :
  stable (raise_for_status E resp).
Proof.
  unfold raise_for_status.
  destruct ((400 <=? status_code resp) && (status_code resp <? 600))%Z;
    [apply stable_raise | apply stable_ret].
Qed.

Lemma stable_extract_news_entry (r : row) : stable (extract_news_entry E r).
Proof.
  apply stable_try; [| apply stable_handler].
  destruct (h3_href r) as [news_url |]; [| apply stable_ret].
  destruct (negb (PyStr.truthy news_url)); [apply stable_ret |].
  apply stable_bind; [apply stable_http_get | intros resp].
  apply stable_bind; [apply stable_raise_for_status | intros _].
  apply stable_bind; [apply stable_format_date | intros [news_date news_time]].
  apply stable_bind; [apply stable_safe_translate | intros heading].
  apply stable_bind; [apply stable_safe_translate | intros summary].
  apply stable_bind; [apply stable_safe_translate | intros details].
  apply stable_ret.
Qed.

Lemma stable_extract_rows (rows : list row) :
  forall acc, stable (extract_rows E rows acc).
Proof.
  induction rows as [| r rows IH]; intros acc; simpl.
  - apply stable_ret.
  - apply stable_bind; [apply stable_extract_news_entry |].
    intros [en |]; apply IH.
Qed.

Lemma stable_fetch_page_content (page_num : Z) :
  stable (fetch_page_content E page_num).
Proof.
  apply stable_try; [| apply stable_handler].
  apply stable_bind; [apply stable_http_get | intros resp].
  apply stable_bind; [apply stable_raise_for_status | intros _].
  destruct (select_news_rows E (text resp)); [apply stable_ret |].
  apply stable_extract_rows.
Qed.

(** X18: on a site and with a translation service that answer without
    changing, the task of a page gives the same outcome when it is run
    again. *)
Theorem fetch_page_content_repeatable (page_num : Z) st :
  fst (fetch_page_content E page_num
         (snd (fetch_page_content E page_num st)))
  = fst (fetch_page_content E page_num st).
Proof.
  destruct (stable_fetch_page_content page_num st) as [Hw Hr].
  apply Hr. exact Hw.
Qed.

Lemma run_tasks_frozen st (order : list Z) :
  (forall p, In p order ->
             exists l, fst (fetch_page_content E p st) = Ret l) ->
  forall st0,
    world st0 = world st ->
    exists st1,
      run_tasks E order st0 = (map Ret (map (page_entries E st) order), st1).
Proof.
  induction order as [| p order IH]; intros Hret st0 Hw; simpl.
  - now exists st0.
  - destruct (stable_fetch_page_content p st) as [_ Hr].
    destruct (stable_fetch_page_content p st0) as [Hw0 _].
    specialize (Hr st0 Hw).
    destruct (fetch_page_content E p st0) as [r st1] eqn:Hfetch.
    simpl in Hr, Hw0.
    destruct (IH (fun q Hq => Hret q (or_intror Hq)) st1) as (st2 & ->);
      [congruence |].
    exists st2. f_equal. f_equal.
    destruct (Hret p (or_introl eq_refl)) as (l & Hl).
    unfold page_entries. rewrite Hl. congruence.
Qed.

Lemma until_empty_all (rs : list (list entry)) :
  Forall (fun l => l <> []) rs -> until_empty rs = rs.
Proof.
  induction 1 as [| r rs Hr _ IH]; [reflexivity |].
  destruct r; [contradiction |]. simpl. now rewrite IH.
Qed.

(** X19: on a site and with a translation service that answer without
    changing, when the task of every page returns a non-empty list, the
    aggregate holds the entries of all the pages, whatever the order in
    which the tasks complete: it is a rearrangement of the entries of the
    pages taken in page order. *)
Theorem aggregate_independent_of_completion_order (pages : list Z) st :
  Permutation (as_completed E pages) pages ->
  (forall p, In p pages ->
             exists l, l <> [] /\ fst (fetch_page_content E p st) = Ret l) ->
  exists st',
    run_pool E pages st = (Ret tt, st')
    /\ Permutation (all_entries st')
         (all_entries st ++ flat_map (page_entries E st) pages).
Proof.
  intros Hperm Hpages.
  assert (Horder : forall p, In p (as_completed E pages) ->
             exists l, l <> [] /\ fst (fetch_page_content E p st) = Ret l).
  { intros p Hp. apply Hpages. now apply (Permutation_in _ Hperm). }
  destruct (run_tasks_frozen st (as_completed E pages)) with
    (st0 := with_events st (map ESubmit pages)) as (st1 & Hrun).
  { intros p Hp. destruct (Horder p Hp) as (l & _ & Hl). now exists l. }
  { reflexivity. }
  rewrite run_pool_eq, Hrun, collect_until_empty.
  eexists. split; [reflexivity |]. simpl.
  destruct (run_tasks_events _ _ _ _ Hrun) as (Ha & _). rewrite Ha. simpl.
  rewrite until_empty_all.
  - apply Permutation_app_head. rewrite <- flat_map_concat_map.
    now apply Permutation_flat_map.
  - apply Forall_forall. intros l Hl.
    apply in_map_iff in Hl as (p & <- & Hp).
    destruct (Horder p Hp) as (l & Hne & Hl). unfold page_entries.
    now rewrite Hl.
Qed.

End Frozen.

End Properties.

(** * The properties on the small site *)

Lemma demo_frozen (site : Z -> Demo.page) (total date : option string)
  (translate : string -> result string) (order : list Z -> list Z) :
  frozen (Demo.site_env site total date translate order).
Proof.
  split; simpl.
  - intros url w. unfold Demo.get.
    destruct (Demo.page_of_url url) as [p |]; [| reflexivity].
    now destruct (site p).
  - reflexivity.
Qed.

Lemma demo_always_served (site : Z -> Demo.page) (total date : option string)
  (translate : string -> result string) (order : list Z -> list Z) :
  (forall p, exists rs, site p = Demo.Rows rs) ->
  always_served (Demo.site_env site total date translate order).
Proof.
  intros Hsite url w. simpl. unfold Demo.get.
  destruct (Demo.page_of_url url) as [p |].
  - destruct (Hsite p) as (rs & ->). eexists _, _. split; reflexivity.
  - eexists _, _. split; reflexivity.
Qed.

Lemma site_no_link_rows (p : Z) : exists rs, Demo.site_no_link p = Demo.Rows rs.
Proof. destruct p as [| [q | q |] |]; eexists; reflexivity. Qed.

Lemma demo_only_request_errors_timeout :
  only_request_errors Demo.env_timeout.
Proof.
  intros url w e. simpl. unfold Demo.get.
  destruct (Demo.page_of_url url) as [p |]; [| discriminate].
  destruct p as [| [[q | q |] | [q | q |] |] |]; simpl; try discriminate.
  intros H. now inversion H.
Qed.

(** C4 at an input that does not parse. *)
Lemma format_date_sample_and_sentinel_witness :
  parses (Some "not-a-date") = false
  /\ format_date Demo.env_gap (Some "not-a-date") (Demo.start Demo.env_gap tt)
     = (Ret ("N/A", "N/A"),
        with_events (Demo.start Demo.env_gap tt) [ELog ErrDateParsing]).
Proof.
  split.
  - reflexivity.
  - apply (proj2 (format_date_sample_and_sentinel Demo.env_gap
                    (Demo.start Demo.env_gap tt))).
    reflexivity.
Defined.

(** C4 as first stated fails: the sentinel is not [("unknown", "unknown")]. *)
Lemma format_date_sentinel_not_unknown :
  Datetime.strptime "not-a-date" = None
  /\ fst (format_date Demo.env_gap (Some "not-a-date")
            (Demo.start Demo.env_gap tt))
     <> Ret ("unknown", "unknown").
Proof.
  split.
  - vm_compute. reflexivity.
  - vm_compute. discriminate.
Qed.

(** C7 at a two-character text. *)
Lemma safe_translate_short_witness :
  String.length "ab" < 3
  /\ safe_translate Demo.env_gap "ab" default_chunk_size
       (Demo.start Demo.env_gap tt)
     = (Ret EmptyString, Demo.start Demo.env_gap tt).
Proof.
  split.
  - simpl. lia.
  - apply (safe_translate_short Demo.env_gap "ab"). simpl. lia.
Defined.

(** C6 with a service that is down, and with one that fails on the second
    of two chunks. *)
Lemma safe_translate_best_effort_witness :
  (3 <= String.length "abc" <= 3
   /\ fst (safe_translate Demo.env_degraded "abc" 3
             (Demo.start Demo.env_degraded tt))
      = Ret "abc")
  /\ (3 <= String.length "aa bb cc dd" /\ 5 < String.length "aa bb cc dd"
      /\ fst (safe_translate Demo.env_flaky "aa bb cc dd" 5
                (Demo.start Demo.env_flaky tt))
         = Ret "EN aa bb cc dd").
Proof.
  split.
  - split; [simpl; lia |].
    apply (proj1 (safe_translate_best_effort Demo.env_degraded "abc" 3
                    (Demo.start Demo.env_degraded tt) (le_n 3))).
    simpl. lia.
  - split; [simpl; lia |]. split; [simpl; lia |].
    assert (H3 : 3 <= String.length "aa bb cc dd") by (simpl; lia).
    apply (proj2 (safe_translate_best_effort Demo.env_flaky "aa bb cc dd" 5
                    (Demo.start Demo.env_flaky tt) H3)).
    simpl. lia.
Defined.

(** C5 at a text of short words, and at a text with a long word. *)
Lemma make_chunks_whole_words_bounded_witness :
  ((forall w, In w (PyStr.split "aa bb cc dddd e") -> String.length w <= 5)
   /\ (forall c, In c (make_chunks "aa bb cc dddd e" 5) -> String.length c <= 5))
  /\ (In "aaaaa" (PyStr.split "aaaaa bb") /\ 3 < String.length "aaaaa"
      /\ In "aaaaa" (make_chunks "aaaaa bb" 3)).
Proof.
  assert (H : forall w, In w (PyStr.split "aa bb cc dddd e") ->
                        String.length w <= 5).
  { intros w Hin. vm_compute in Hin.
    repeat (destruct Hin as [<- | Hin]; [simpl; lia |]). contradiction. }
  assert (Hin : In "aaaaa" (PyStr.split "aaaaa bb")) by (vm_compute; auto).
  assert (Hlong : 3 < String.length "aaaaa") by (simpl; lia).
  split; [split; [exact H |] | split; [exact Hin | split; [exact Hlong |]]].
  - exact (proj1 (proj2 (make_chunks_whole_words_bounded "aa bb cc dddd e" 5))
             H).
  - exact (proj2 (proj2 (make_chunks_whole_words_bounded "aaaaa bb" 3))
             "aaaaa" Hin Hlong).
Defined.

(** C5 as first stated fails: a word longer than the limit is a chunk. *)
Lemma make_chunks_long_word_exceeds_limit :
  3 < String.length "aaaaa"
  /\ make_chunks "aaaaa" 3 = [EmptyString; "aaaaa"]
  /\ exists c, In c (make_chunks "aaaaa" 3) /\ ~ String.length c <= 3.
Proof.
  split; [simpl; lia |]. split; [reflexivity |].
  exists "aaaaa". split.
  - vm_compute. auto.
  - simpl. lia.
Qed.

(** C8 on a site whose dates do not parse and whose translation service is
    down: the entry is still returned, with all its fields. *)
Lemma extract_entry_complete_witness :
  h3_href (Demo.article "?a=1") = Some "?a=1"
  /\ "?a=1" <> EmptyString
  /\ requests_get Demo.env_degraded (base_url ++ "?a=1") tt
     = (Ret (mk_response 200 ("detail " ++ base_url ++ "?a=1")), tt)
  /\ exists en,
       fst (extract_news_entry Demo.env_degraded (Demo.article "?a=1")
              (Demo.start Demo.env_degraded tt))
       = Ret (Some en)
       /\ complete en.
Proof.
  split; [reflexivity |]. split; [discriminate |]. split; [reflexivity |].
  apply (proj2 (extract_entry_complete Demo.env_degraded (Demo.article "?a=1")
                  (Demo.start Demo.env_degraded tt))
           "?a=1" (mk_response 200 ("detail " ++ base_url ++ "?a=1")) tt).
  - reflexivity.
  - discriminate.
  - reflexivity.
  - reflexivity.
Defined.

(** C10 on a page whose second row has no link: the two rows around it give
    their entries. *)
Lemma row_without_link_is_skipped_witness :
  h3_href Demo.no_link = None
  /\ extract_news_entry Demo.env_no_link Demo.no_link
       (Demo.start Demo.env_no_link tt)
     = (Ret None, Demo.start Demo.env_no_link tt)
  /\ In (EGet (base_url ++ "?a=2"))
        (trace (snd (fetch_page_content Demo.env_no_link 1
                       (Demo.start Demo.env_no_link tt))))
  /\ exists l,
       fst (fetch_page_content Demo.env_no_link 1
              (Demo.start Demo.env_no_link tt))
       = Ret l
       /\ map (field "news_url") l
          = [Some (PyStr (base_url ++ "?a=1"));
             Some (PyStr (base_url ++ "?a=2"))].
Proof.
  destruct (row_without_link_is_skipped Demo.env_no_link Demo.no_link eq_refl)
    as [Hskip Hpage].
  destruct (Hpage 1%Z (Demo.start Demo.env_no_link tt) Demo.first_response tt
                  [Demo.article "?a=1"] [Demo.article "?a=2"]
                  eq_refl eq_refl eq_refl)
    as (_ & Hrequests & Hentries).
  split; [reflexivity |]. split; [apply Hskip |]. split.
  - apply (Hrequests (Demo.article "?a=2") "?a=2").
    + simpl. auto.
    + reflexivity.
    + discriminate.
  - apply Hentries. apply demo_always_served, site_no_link_rows.
Defined.

(** C1 on a site whose second page cannot be fetched and whose fourth page
    has no rows. *)
Lemma fetch_error_and_empty_both_empty_witness :
  (listing_fetch_error Demo.env_timeout 2 tt
   /\ fst (fetch_page_content Demo.env_timeout 2 (Demo.start Demo.env_timeout tt))
      = Ret [])
  /\ (listing_empty Demo.env_timeout 4 tt
      /\ fst (fetch_page_content Demo.env_timeout 4
                (Demo.start Demo.env_timeout tt))
         = Ret []).
Proof.
  assert (Herr : listing_fetch_error Demo.env_timeout 2 tt) by reflexivity.
  assert (Hempty : listing_empty Demo.env_timeout 4 tt)
    by (split; reflexivity).
  split; split; try assumption.
  - apply (proj1 (fetch_error_and_empty_both_empty Demo.env_timeout 2
                    (Demo.start Demo.env_timeout tt))).
    exact Herr.
  - apply (proj2 (fetch_error_and_empty_both_empty Demo.env_timeout 4
                    (Demo.start Demo.env_timeout tt))).
    exact Hempty.
Defined.

(** C1 as first stated fails: the same page gives the same value when its
    fetch times out and when it is served empty. *)
Lemma fetch_error_and_empty_same_value :
  listing_fetch_error Demo.env_timeout 2 tt
  /\ listing_empty Demo.env_gap 2 tt
  /\ fst (fetch_page_content Demo.env_timeout 2 (Demo.start Demo.env_timeout tt))
     = fst (fetch_page_content Demo.env_gap 2 (Demo.start Demo.env_gap tt)).
Proof.
  split; [reflexivity |]. split; [split; reflexivity |].
  vm_compute. reflexivity.
Qed.

(** C9 fails on the code: a first page answered with status 500 whose body
    still carries the pagination text "2" does not stop the run, because
    [scrape_all_pages] never calls [raise_for_status]: two tasks are
    submitted, [main] returns and a table with an entry is saved. *)
Theorem first_page_error_status_is_not_checked :
  fst (requests_get Demo.env_first_page_500 first_url tt)
  = Ret (mk_response 500 (Demo.listing_text 1))
  /\ error_status (mk_response 500 (Demo.listing_text 1)) = true
  /\ exists st' en,
       main Demo.env_first_page_500 (Demo.start Demo.env_first_page_500 tt)
       = (Ret tt, st')
       /\ In (ESubmit 1) (trace st') /\ In (ESubmit 2) (trace st')
       /\ In (ESave default_filename [en]) (trace st').
Proof.
  split; [reflexivity |]. split; [reflexivity |].
  eexists _, _. split; [vm_compute; reflexivity |].
  simpl. intuition.
Qed.

(** X20 on a site without pagination control. *)
Lemma setup_failure_aborts_run_witness :
  setup_fails Demo.env_no_total tt
  /\ exists e st',
       main Demo.env_no_total (Demo.start Demo.env_no_total tt) = (Raise e, st')
       /\ trace st' = [] ++ [EGet first_url]
       /\ all_entries st' = [].
Proof.
  assert (H : setup_fails Demo.env_no_total tt) by exact I.
  split; [exact H |].
  exact (setup_failure_aborts_run Demo.env_no_total
           (Demo.start Demo.env_no_total tt) H).
Defined.

(** C2 on three pages completed in order, the second of which times out. *)
Lemma fetch_error_ends_aggregation_witness :
  listing_fetch_error Demo.env_timeout 2 tt
  /\ fst (fetch_page_content Demo.env_timeout 2
            (snd (run_tasks Demo.env_timeout [1%Z]
                    (Demo.submitted Demo.env_timeout tt))))
     = Ret []
  /\ exists st',
       all_entries st'
       = kept (fst (run_tasks Demo.env_timeout [1%Z]
                      (Demo.submitted Demo.env_timeout tt)))
       /\ main Demo.env_timeout (Demo.start Demo.env_timeout tt) = (Ret tt, st')
       /\ In (ESave default_filename
                (kept (fst (run_tasks Demo.env_timeout [1%Z]
                              (Demo.submitted Demo.env_timeout tt)))))
             (trace st').
Proof.
  assert (Herr : listing_fetch_error Demo.env_timeout 2 tt) by reflexivity.
  split; [exact Herr |].
  exact (fetch_error_ends_aggregation Demo.env_timeout
           (Demo.start Demo.env_timeout tt) Demo.first_response tt "3" 3%Z
           [1%Z] [3%Z] 2%Z
           (fst (run_tasks Demo.env_timeout [1%Z]
                   (Demo.submitted Demo.env_timeout tt)))
           (snd (run_tasks Demo.env_timeout [1%Z]
                   (Demo.submitted Demo.env_timeout tt)))
           eq_refl eq_refl eq_refl eq_refl eq_refl Herr).
Defined.

(** C2 as first stated fails: the third page's task returns an entry, and
    the saved aggregate does not hold it, because the second page timed
    out first. *)
Lemma fetch_error_drops_later_pages :
  listing_fetch_error Demo.env_timeout 2 tt
  /\ exists kept lost st',
       fst (run_tasks Demo.env_timeout
              (as_completed Demo.env_timeout (py_range 1 4))
              (Demo.submitted Demo.env_timeout tt))
       = [Ret [kept]; Ret []; Ret [lost]]
       /\ main Demo.env_timeout (Demo.start Demo.env_timeout tt) = (Ret tt, st')
       /\ In (ESave default_filename [kept]) (trace st')
       /\ ~ In lost (all_entries st').
Proof.
  split; [reflexivity |].
  eexists _, _, _. split; [vm_compute; reflexivity |].
  split; [vm_compute; reflexivity |]. split.
  - simpl. intuition.
  - simpl. intros [H | []]. discriminate.
Qed.



(** * Further properties on the small site *)

(** X3 with a service that is down, on a text with a double space. *)
Lemma safe_translate_long_text_all_calls_fail_witness :
  fst (safe_translate Demo.env_degraded "aa  bb" 3
         (Demo.start Demo.env_degraded tt))
  = Ret "aa bb"
  /\ PyStr.split "aa bb" = PyStr.split "aa  bb".
Proof.
  apply (safe_translate_long_text_all_calls_fail Demo.env_degraded "aa  bb" 3
           (Demo.start Demo.env_degraded tt)).
  - intros t w. now exists ConnectionError.
  - simpl. lia.
  - simpl. lia.
Defined.

(** X5 at the sample date. *)
Lemma format_date_output_witness :
  format_date Demo.env_gap (Some "05.03.2021. 14:30")
    (Demo.start Demo.env_gap tt)
  = (Ret ("2021-03-05", "14:30"), Demo.start Demo.env_gap tt)
  /\ ((parses (Some "05.03.2021. 14:30") = false
       /\ "2021-03-05" = "N/A" /\ "14:30" = "N/A")
      \/ (exists dt,
             "2021-03-05" = Datetime.strftime_date dt
             /\ "14:30" = Datetime.strftime_time dt
             /\ 1 <= Datetime.month dt <= 12
             /\ 1 <= Datetime.day dt
                  <= Datetime.days_in_month (Datetime.year dt)
                                            (Datetime.month dt)
             /\ Datetime.hour dt <= 23 /\ Datetime.minute dt <= 59
             /\ String.length "14:30" = 5
             /\ (1000 <= Datetime.year dt -> String.length "2021-03-05" = 10))).
Proof.
  assert (H : format_date Demo.env_gap (Some "05.03.2021. 14:30")
                (Demo.start Demo.env_gap tt)
              = (Ret ("2021-03-05", "14:30"), Demo.start Demo.env_gap tt))
    by (vm_compute; reflexivity).
  split; [exact H |].
  exact (format_date_output Demo.env_gap _ _ _ _ _ H).
Defined.

(** X6 on a row whose detail request times out. *)
Lemma detail_fetch_failure_skips_row_witness :
  detail_fetch_error Demo.env_timeout
    (base_url ++ "?opcija=arhiva&strana=2&jezik=b") tt
  /\ extract_news_entry Demo.env_timeout Demo.article_to_page_2
       (Demo.start Demo.env_timeout tt)
     = (Ret None,
        @mk_state Demo.env_timeout tt
          ([] ++ [EGet (base_url ++ "?opcija=arhiva&strana=2&jezik=b");
                  ELog ErrExtract])
          []).
Proof.
  assert (H : detail_fetch_error Demo.env_timeout
                (base_url ++ "?opcija=arhiva&strana=2&jezik=b") tt)
    by exact I.
  split; [exact H |].
  apply (detail_fetch_failure_skips_row Demo.env_timeout
           Demo.article_to_page_2 (Demo.start Demo.env_timeout tt)
           "?opcija=arhiva&strana=2&jezik=b").
  - reflexivity.
  - discriminate.
  - exact H.
Defined.

(** X7 on a page whose request raises outside the [RequestException]
    family. *)
Lemma fetch_page_raises_iff_witness :
  fst (requests_get Demo.env_crash (listing_url 2) tt) = Raise OtherError
  /\ fst (fetch_page_content Demo.env_crash 2 (Demo.start Demo.env_crash tt))
     = Raise OtherError.
Proof.
  assert (H : fst (requests_get Demo.env_crash (listing_url 2) tt)
              = Raise OtherError) by reflexivity.
  split; [exact H |].
  apply (proj2 (fetch_page_raises_iff Demo.env_crash 2
                  (Demo.start Demo.env_crash tt) OtherError)).
  split; [exact H | reflexivity].
Defined.

(** X8 on a page of three rows, one without link. *)
Lemma page_entries_complete_and_bounded_witness :
  Forall complete
    (page_entries Demo.env_no_link (Demo.start Demo.env_no_link tt) 1)
  /\ List.length
       (page_entries Demo.env_no_link (Demo.start Demo.env_no_link tt) 1)
     <= 3.
Proof.
  apply (page_entries_complete_and_bounded Demo.env_no_link 1
           (Demo.start Demo.env_no_link tt)
           (page_entries Demo.env_no_link (Demo.start Demo.env_no_link tt) 1)
           (snd (fetch_page_content Demo.env_no_link 1
                   (Demo.start Demo.env_no_link tt)))).
  vm_compute. reflexivity.
Defined.

(** X9 on the same page: two of its three rows have a link. *)
Lemma page_entries_count_when_served_witness :
  always_served Demo.env_no_link
  /\ exists resp l st',
       fst (requests_get Demo.env_no_link (listing_url 1) tt) = Ret resp
       /\ fetch_page_content Demo.env_no_link 1 (Demo.start Demo.env_no_link tt)
          = (Ret l, st')
       /\ List.length l
          = List.length
              (filter has_link (select_news_rows Demo.env_no_link (text resp))).
Proof.
  assert (H : always_served Demo.env_no_link)
    by (apply demo_always_served, site_no_link_rows).
  split; [exact H |].
  exact (page_entries_count_when_served Demo.env_no_link 1
           (Demo.start Demo.env_no_link tt) H).
Defined.

(** X12 on the site whose second page times out. *)
Lemma run_completes_when_only_requests_fail_witness :
  only_request_errors Demo.env_timeout
  /\ ~ setup_fails Demo.env_timeout tt
  /\ exists st',
       (writable (all_entries st') = true
        /\ main Demo.env_timeout (Demo.start Demo.env_timeout tt) = (Ret tt, st')
        /\ In (ESave default_filename (all_entries st')) (trace st'))
       \/ (writable (all_entries st') = false
           /\ main Demo.env_timeout (Demo.start Demo.env_timeout tt)
              = (Raise IllegalCharacterError, st')
           /\ In (EPartial default_filename) (trace st')).
Proof.
  assert (Hnet := demo_only_request_errors_timeout).
  assert (Hsetup : ~ setup_fails Demo.env_timeout tt)
    by (vm_compute; discriminate).
  split; [exact Hnet |]. split; [exact Hsetup |].
  exact (run_completes_when_only_requests_fail Demo.env_timeout
           (Demo.start Demo.env_timeout tt) Hnet Hsetup).
Defined.

(** X13 on a site that announces no page. *)
Lemma no_task_when_page_count_not_positive_witness :
  PyInt.of_str "0" = Some 0%Z
  /\ main Demo.env_zero (Demo.start Demo.env_zero tt)
     = (Ret tt,
        @mk_state Demo.env_zero tt
          ([] ++ EGet first_url :: closing_events []) []).
Proof.
  split; [reflexivity |].
  apply (no_task_when_page_count_not_positive Demo.env_zero
           (Demo.start Demo.env_zero tt) Demo.first_response tt "0" 0%Z);
    first [reflexivity | lia].
Defined.

(** X14 on the site whose second page raises outside the
    [RequestException] family. *)
Lemma task_exception_aborts_without_saving_witness :
  main Demo.env_crash (Demo.start Demo.env_crash tt)
  = (Raise OtherError,
     mk_state
       (world (snd (run_tasks Demo.env_crash [1%Z; 2%Z; 3%Z]
                      (Demo.submitted Demo.env_crash tt))))
       (trace (snd (run_tasks Demo.env_crash [1%Z; 2%Z; 3%Z]
                      (Demo.submitted Demo.env_crash tt))))
       (List.concat
          (Demo.returned
             (fst (run_tasks Demo.env_crash [1%Z]
                     (Demo.submitted Demo.env_crash tt))))))
  /\ exists evs,
       trace (snd (run_tasks Demo.env_crash [1%Z; 2%Z; 3%Z]
                     (Demo.submitted Demo.env_crash tt)))
       = [] ++ evs
       /\ forall f rows, ~ In (ESave f rows) evs.
Proof.
  apply (task_exception_aborts_without_saving Demo.env_crash
           (Demo.start Demo.env_crash tt) Demo.first_response tt "3" 3%Z
           (Demo.returned
              (fst (run_tasks Demo.env_crash [1%Z]
                      (Demo.submitted Demo.env_crash tt))))
           OtherError
           [fst (fetch_page_content Demo.env_crash 3
                   (snd (run_tasks Demo.env_crash [1%Z; 2%Z]
                           (Demo.submitted Demo.env_crash tt))))]
           (snd (run_tasks Demo.env_crash [1%Z; 2%Z; 3%Z]
                   (Demo.submitted Demo.env_crash tt)))).
  - reflexivity.
  - reflexivity.
  - reflexivity.
  - vm_compute. reflexivity.
  - vm_compute. constructor; [discriminate | constructor].
Defined.

(** X15 on a text whose first word is longer than the limit. *)
Lemma first_chunk_empty_iff_first_word_long_witness :
  PyStr.split "aaaaa bb" = ["aaaaa"; "bb"]
  /\ exists c rest,
       make_chunks "aaaaa bb" 3 = c :: rest
       /\ (c = EmptyString <-> 3 <= String.length "aaaaa")
       /\ Forall (fun c' => c' <> EmptyString) rest.
Proof.
  assert (H : PyStr.split "aaaaa bb" = ["aaaaa"; "bb"]) by reflexivity.
  split; [exact H |].
  exact (first_chunk_empty_iff_first_word_long "aaaaa bb" 3 "aaaaa" ["bb"] H).
Defined.

(** X17 on an article of the degraded site. *)
Lemma returned_entry_fields_witness :
  exists en,
    fst (extract_news_entry Demo.env_degraded (Demo.article "?a=1")
           (Demo.start Demo.env_degraded tt))
    = Ret (Some en)
    /\ exists news_url,
         h3_href (Demo.article "?a=1") = Some news_url
         /\ In ("news_url", PyStr (base_url ++ news_url)) en.
Proof.
  destruct (extract_news_entry Demo.env_degraded (Demo.article "?a=1")
              (Demo.start Demo.env_degraded tt)) as [r st'] eqn:Hrun.
  assert (Hr : exists en, r = Ret (Some en)).
  { vm_compute in Hrun. inversion Hrun. eexists. reflexivity. }
  destruct Hr as (en & ->). exists en. split; [reflexivity |].
  pose proof (returned_entry_fields Demo.env_degraded (Demo.article "?a=1")
                (Demo.start Demo.env_degraded tt) en) as H.
  rewrite Hrun in H.
  destruct (H eq_refl) as (news_url & resp & h & s & b & Hhref & _ & _ & _ & Hen).
  cbv zeta in Hen. destruct Hen as (Hen & _).
  exists news_url. split; [exact Hhref |]. rewrite Hen. simpl. auto.
Defined.

(** X18 on the site with an empty second page. *)
Lemma fetch_page_content_repeatable_witness :
  frozen Demo.env_gap
  /\ fst (fetch_page_content Demo.env_gap 1
            (snd (fetch_page_content Demo.env_gap 1
                    (Demo.start Demo.env_gap tt))))
     = fst (fetch_page_content Demo.env_gap 1 (Demo.start Demo.env_gap tt)).
Proof.
  assert (H : frozen Demo.env_gap) by apply demo_frozen.
  split; [exact H |].
  exact (fetch_page_content_repeatable Demo.env_gap H 1
           (Demo.start Demo.env_gap tt)).
Defined.

(** X19 on three pages of one article each, completed last page first. *)
Lemma aggregate_independent_of_completion_order_witness :
  frozen Demo.env_full_reversed
  /\ Permutation (as_completed Demo.env_full_reversed (py_range 1 4))
                 (py_range 1 4)
  /\ exists st',
       run_pool Demo.env_full_reversed (py_range 1 4)
         (Demo.start Demo.env_full_reversed tt)
       = (Ret tt, st')
       /\ Permutation (all_entries st')
            ([] ++ flat_map
                     (page_entries Demo.env_full_reversed
                        (Demo.start Demo.env_full_reversed tt))
                     (py_range 1 4)).
Proof.
  assert (H : frozen Demo.env_full_reversed) by apply demo_frozen.
  assert (Hperm : Permutation (as_completed Demo.env_full_reversed (py_range 1 4))
                              (py_range 1 4))
    by (apply Permutation_sym, Permutation_rev).
  split; [exact H |]. split; [exact Hperm |].
  apply (aggregate_independent_of_completion_order Demo.env_full_reversed H
           (py_range 1 4) (Demo.start Demo.env_full_reversed tt) Hperm).
  intros p Hp. simpl in Hp.
  destruct Hp as [<- | [<- | [<- | []]]];
    eexists; (split; [| vm_compute; reflexivity]); discriminate.
Defined.

(** X10 on the site whose second page times out. *)
Lemma main_saves_once_at_the_end_witness :
  fst (main Demo.env_timeout (Demo.start Demo.env_timeout tt)) = Ret tt
  /\ Forall complete
       (all_entries (snd (main Demo.env_timeout (Demo.start Demo.env_timeout tt))))
  /\ exists evs last_events,
       (forall f rows, ~ In (ESave f rows) evs)
       /\ (forall f, ~ In (EPartial f) evs)
       /\ trace (snd (main Demo.env_timeout (Demo.start Demo.env_timeout tt)))
          = [] ++ evs ++ last_events
       /\ last_events
          = closing_events
              (all_entries
                 (snd (main Demo.env_timeout (Demo.start Demo.env_timeout tt)))).
Proof.
  assert (Hret : fst (main Demo.env_timeout (Demo.start Demo.env_timeout tt))
                 = Ret tt) by (vm_compute; reflexivity).
  split; [exact Hret |].
  destruct (main_saves_once_at_the_end Demo.env_timeout
              (Demo.start Demo.env_timeout tt))
    as (Hc & evs & last_events & Hsave & Hpartial & Ht & Hend).
  split; [exact Hc |]. exists evs, last_events.
  split; [exact Hsave |]. split; [exact Hpartial |]. split; [exact Ht |].
  destruct Hend as [(_ & _ & Hl) | [(Hr & _) | (e & Hr & _)]].
  - exact Hl.
  - rewrite Hret in Hr. discriminate.
  - rewrite Hret in Hr. discriminate.
Defined.

(** X11 on the site with a row without link. *)
Lemma main_requests_stay_under_base_url_witness :
  exists evs,
    trace (snd (main Demo.env_no_link (Demo.start Demo.env_no_link tt)))
    = [] ++ evs
    /\ forall url, In (EGet url) evs -> String.prefix base_url url = true.
Proof.
  exact (main_requests_stay_under_base_url Demo.env_no_link
           (Demo.start Demo.env_no_link tt)).
Defined.

(** X16 on a text of five words. *)
Lemma make_chunks_greedy_witness :
  exists groups,
    make_chunks "aa bb cc dddd e" 5 = map (PyStr.join " ") groups
    /\ List.concat groups = PyStr.split "aa bb cc dddd e"
    /\ forall pre g w g' post,
         groups = pre ++ g :: (w :: g') :: post ->
         5 < String.length (PyStr.join " " g) + String.length w + 1.
Proof.
  exact (make_chunks_greedy "aa bb cc dddd e" 5).
Defined.
